(** * Firestore migration scripts of roomista_arreglos_bd: a shallow embedding

    The repository holds one-off Python scripts that walk a Firestore
    collection, compute for every document a dictionary of field updates
    ([update_data] / [update_payload]) and stage it in a write batch that is
    committed every 499 staged documents.

    Embedded here:
    - [migrate_case_style.py]: [migrate_collection], the two field maps, [main];
    - [migrate_content_fields_i18n.py]: [migrate_collection_content] and
      [CONTENT_CONVERSION_MAP];
    - [migrate_data_schema.py]: [migrate_listings];
    - [migrate_name_fields_i18n.py]: [migrate_listings].

    Python dictionaries read from the store are finite maps ([gmap]); the
    dictionaries the scripts iterate over (field maps, conversion rules) are
    association lists in the order of the literal, since iteration order
    decides which assignment to [update_data] comes last.  Python floats are
    IEEE binary64 values ([spec_float] with [prec = 53], [emax = 1024]). *)

From Stdlib Require Import ZArith ZifyNat SpecFloat.
From stdpp Require Import gmap strings list fin_maps pretty.

#[local] Set Warnings "-register-all,-clear-no-such-hyp".

Open Scope string_scope.
Open Scope list_scope.
Open Scope nat_scope.

(** ** Values stored in documents *)

(** What [doc.to_dict()] can hold.  A Firestore timestamp arrives as a
    timezone-aware [datetime] (UTC); it is kept as microseconds since the
    epoch, the resolution of [datetime]. *)
Inductive Value :=
| VNull
| VBool (b : bool)
| VInt (n : Z)
| VFloat (f : spec_float)
| VStr (s : string)
| VTimestamp (us : Z)
| VList (items : list Value)
| VMap (fields : list (string * Value)).

(** One entry of an update dictionary: a new value, or
    [firestore.DELETE_FIELD]. *)
Inductive Change :=
| SetTo (v : Value)
| DELETE_FIELD.

(** Exceptions the per-document code can raise. *)
Inductive PyExn := TypeError | ValueError | OverflowError.

Inductive Exc (A : Type) :=
| Ok (a : A)
| Raise (e : PyExn).
Arguments Ok {A} a.
Arguments Raise {A} e.

#[global] Instance exc_ret : MRet Exc := fun A a => Ok a.
#[global] Instance exc_bind : MBind Exc := fun A B k m =>
  match m with
  | Ok a => k a
  | Raise e => Raise e
  end.

(** [if update_data:] a dictionary is true when it has at least one key. *)
Definition truthy (update_data : gmap string Change) : bool :=
  bool_decide (size update_data ≠ 0).

(** The effect of the store applying [update(ref, update_data)] to the fields
    of an existing document: every key is written or removed.  No key of the
    scripts' tables contains a dot, so keys are plain field names. *)
Definition apply_change (c : Change) : option Value :=
  match c with
  | SetTo v => Some v
  | DELETE_FIELD => None
  end.

Definition apply_update (update_data : gmap string Change) (data : gmap string Value)
  : gmap string Value :=
  merge (fun c v => match c with Some c => apply_change c | None => v end)
        update_data data.

(** ** Python numbers

    Python's [float] is IEEE binary64.  The operations of the standard
    library that [migrate_data_schema.py] calls are written out after
    CPython: [int / int] and [int / float] (true division, correctly
    rounded), [int(x)] (truncation), [datetime.timestamp()] of an aware
    datetime (its microseconds since the epoch, an [int], truly divided by
    [10**6]) and [datetime.fromtimestamp(x, tz=timezone.utc)] (the float is
    split by [modf], the fraction scaled by [1e6] and rounded half to even). *)

Module PyFloat.

Definition prec : Z := 53.
Definition emax : Z := 1024.

(** An integer as the quotient [n / 1] of the division below: its exact
    value, not yet rounded. *)
Definition exact (n : Z) : spec_float :=
  match n with
  | Z0 => S754_zero false
  | Zpos p => S754_finite false p 0
  | Zneg p => S754_finite true p 0
  end.

(** [float(n)], rounded to nearest even; too large an [int] raises. *)
Definition of_int (n : Z) : Exc spec_float :=
  match binary_normalize prec emax n 0 false with
  | S754_infinity _ => Raise OverflowError
  | f => Ok f
  end.

(** [a / b] on two [int]s with [b > 0]: the correctly rounded quotient. *)
Definition int_truediv (a b : Z) : spec_float :=
  SFdiv prec emax (exact a) (exact b).

(** [x / 1000.0] *)
Definition div_1000 (x : spec_float) : spec_float :=
  SFdiv prec emax x (exact 1000).

(** [int(x)]: truncation toward zero. *)
Definition to_int (x : spec_float) : Exc Z :=
  match x with
  | S754_nan => Raise ValueError
  | S754_infinity _ => Raise OverflowError
  | S754_zero _ => Ok 0%Z
  | S754_finite s m e =>
      Ok (cond_Zopp s (if (0 <=? e)%Z then Z.pos m * 2 ^ e else Z.pos m / 2 ^ (- e)))%Z
  end.

(** [math.modf] on a finite nonzero float: the integral part as an integer
    and the fractional part, both with the sign of the argument. *)
Definition modf (s : bool) (m : positive) (e : Z) : Z * spec_float :=
  if (0 <=? e)%Z then (cond_Zopp s (Z.pos m * 2 ^ e), S754_zero s)%Z
  else
    let intpart := (Z.pos m / 2 ^ (- e))%Z in
    match (Z.pos m mod 2 ^ (- e))%Z with
    | Zpos r => (cond_Zopp s intpart, S754_finite s r e)
    | _ => (cond_Zopp s intpart, S754_zero s)
    end.

(** Rounding to the nearest integer, ties to the even one. *)
Definition round_half_even (x : spec_float) : Z :=
  match x with
  | S754_finite s m e =>
      if (0 <=? e)%Z then cond_Zopp s (Z.pos m * 2 ^ e)%Z
      else
        let q := (Z.pos m / 2 ^ (- e))%Z in
        let r := (2 * (Z.pos m mod 2 ^ (- e)))%Z in
        let up :=
          match (r ?= 2 ^ (- e))%Z with
          | Lt => false
          | Gt => true
          | Eq => Z.odd q
          end in
        cond_Zopp s (if up then q + 1 else q)%Z
  | _ => 0%Z
  end.

(** The first and last second a [datetime] can hold, years 1 to 9999. *)
Definition MIN_SECOND : Z := -62135596800.
Definition MAX_SECOND : Z := 253402300799.

(** [datetime.timestamp()] of an aware datetime given by its microseconds
    since the epoch. *)
Definition timestamp (us : Z) : spec_float :=
  int_truediv us 1000000.

(** [datetime.fromtimestamp(x, tz=timezone.utc)], as microseconds since the
    epoch.  Outside the years 1 to 9999 CPython raises [ValueError] or
    [OverflowError] depending on the platform; both end the run. *)
Definition fromtimestamp (x : spec_float) : Exc Z :=
  match x with
  | S754_nan => Raise ValueError
  | S754_infinity _ => Raise OverflowError
  | S754_zero _ => Ok 0%Z
  | S754_finite s m e =>
      let '(intpart, floatpart) := modf s m e in
      let us := round_half_even (SFmul prec emax floatpart (exact 1000000)) in
      let '(sec, us) :=
        if (1000000 <=? us)%Z then (intpart + 1, us - 1000000)%Z
        else if (us <? 0)%Z then (intpart - 1, us + 1000000)%Z
        else (intpart, us) in
      if ((MIN_SECOND <=? sec) && (sec <=? MAX_SECOND))%Z
      then Ok (sec * 1000000 + us)%Z
      else Raise ValueError
  end.

End PyFloat.

(** ** Renaming and deleting fields

    [migrate_case_style.py] and [migrate_name_fields_i18n.py] have the same
    loop body:
<<
    for old_name, new_name in field_map.items():
        if old_name in data:
            update_data[new_name] = data[old_name]
            update_data[old_name] = firestore.DELETE_FIELD
>> *)
Definition rename_step (data : gmap string Value) (update_data : gmap string Change)
    (entry : string * string) : gmap string Change :=
  let '(old_name, new_name) := entry in
  match data !! old_name with
  | Some v => <[old_name := DELETE_FIELD]> (<[new_name := SetTo v]> update_data)
  | None => update_data
  end.

(** ** The batching loop shared by the four scripts

    All four functions have the same loop around their per-document code:
<<
    batch = db.batch(); docs_processed = 0
    for doc in docs:
        update_data = ...                      # per script
        if update_data:
            batch.update(doc.reference, update_data)
            docs_processed += 1
            if docs_processed % 499 == 0:
                batch.commit()
                batch = db.batch()
    if docs_processed > 0:
        batch.commit()
        print(... docs_processed ...)
>>
    [migrate_collection_content] calls this counter [updates_planned] and
    counts every visited document in a second counter, here [docs_seen].
    What follows the last [commit] differs per script and is defined with
    each of them. *)

Definition Staged : Type := string * gmap string Change.

Inductive Msg :=
| MsgStart
| MsgPlan (doc_id : string)
| MsgBatchFull
| MsgFinalCommit
| MsgDone (updated : nat)
| MsgDoneOf (updated visited : nat)
| MsgNoUpdates.

Record LoopState := mkLoop {
  batch : list Staged;             (* updates staged in the current batch object *)
  docs_processed : nat;            (* documents staged so far *)
  docs_seen : nat;                 (* documents visited so far *)
  commits : list (list Staged);    (* batches committed so far, oldest first *)
  output : list Msg                (* what was printed, oldest first *)
}.

Definition initial : LoopState :=
  {| batch := []; docs_processed := 0; docs_seen := 0; commits := [];
     output := [MsgStart] |}.

(** [print(...); batch.update(doc.reference, update_data); docs_processed += 1] *)
Definition do_update (doc_id : string) (update_data : gmap string Change) (st : LoopState)
  : LoopState :=
  {| batch := batch st ++ [(doc_id, update_data)];
     docs_processed := S (docs_processed st);
     docs_seen := docs_seen st;
     commits := commits st;
     output := output st ++ [MsgPlan doc_id] |}.

(** [print(...); batch.commit(); batch = db.batch()] *)
Definition do_commit_and_renew (st : LoopState) : LoopState :=
  {| batch := [];
     docs_processed := docs_processed st;
     docs_seen := docs_seen st;
     commits := commits st ++ [batch st];
     output := output st ++ [MsgBatchFull] |}.

(** [print(...); batch.commit()] after the loop: no new batch follows. *)
Definition do_final_commit (st : LoopState) : LoopState :=
  {| batch := batch st;
     docs_processed := docs_processed st;
     docs_seen := docs_seen st;
     commits := commits st ++ [batch st];
     output := output st ++ [MsgFinalCommit] |}.

Definition say (m : Msg) (st : LoopState) : LoopState :=
  {| batch := batch st;
     docs_processed := docs_processed st;
     docs_seen := docs_seen st;
     commits := commits st;
     output := output st ++ [m] |}.

Definition see (st : LoopState) : LoopState :=
  {| batch := batch st;
     docs_processed := docs_processed st;
     docs_seen := S (docs_seen st);
     commits := commits st;
     output := output st |}.

(** The states one loop iteration goes through once its per-document code
    has produced [update_data]: after [batch.update], and after the
    [commit] if there is one. *)
Definition visit_points (doc_id : string) (update_data : gmap string Change)
    (st : LoopState) : list LoopState :=
  if truthy update_data then
    let st1 := do_update doc_id update_data st in
    if (docs_processed st1 mod 499 =? 0)%nat
    then [st1; do_commit_and_renew st1]
    else [st1]
  else [].

Definition visit (doc_id : string) (update_data : gmap string Change) (st : LoopState)
  : LoopState :=
  see (List.last (visit_points doc_id update_data st) st).

(** [if docs_processed > 0: batch.commit(); print(done) else: print(none)] *)
Definition finish (st : LoopState) : LoopState :=
  if (0 <? docs_processed st)%nat
  then say (MsgDone (docs_processed st)) (do_final_commit st)
  else say MsgNoUpdates st.

Inductive Outcome :=
| Finished (st : LoopState)
| Crashed (e : PyExn) (st : LoopState).

Definition final_state (o : Outcome) : LoopState :=
  match o with
  | Finished st => st
  | Crashed _ st => st
  end.

Definition and_then (o : Outcome) (k : LoopState -> LoopState) : Outcome :=
  match o with
  | Finished st => Finished (k st)
  | Crashed e st => Crashed e st
  end.

Section Engine.

(** The per-document code of a script: from [doc.to_dict()] to the update
    dictionary, or an exception, which ends the run. *)
Variable plan : gmap string Value -> Exc (gmap string Change).

Fixpoint loop (docs : list (string * gmap string Value)) (st : LoopState) : Outcome :=
  match docs with
  | [] => Finished st
  | (doc_id, data) :: rest =>
      match plan data with
      | Raise e => Crashed e st
      | Ok update_data => loop rest (visit doc_id update_data st)
      end
  end.

(** The states of the loop after each statement that touches the batch, in
    order. *)
Fixpoint loop_points (docs : list (string * gmap string Value)) (st : LoopState)
  : list LoopState :=
  match docs with
  | [] => []
  | (doc_id, data) :: rest =>
      match plan data with
      | Raise e => []
      | Ok update_data =>
          visit_points doc_id update_data st
            ++ loop_points rest (visit doc_id update_data st)
      end
  end.

(** The documents a complete loop stages, in order. *)
Fixpoint staged_of (docs : list (string * gmap string Value)) : list Staged :=
  match docs with
  | [] => []
  | (doc_id, data) :: rest =>
      match plan data with
      | Ok update_data =>
          if truthy update_data then (doc_id, update_data) :: staged_of rest
          else staged_of rest
      | Raise _ => []
      end
  end.

End Engine.

(** All the states of a run: the initial one, those of the loop, and the one
    the script ends in when the loop was not cut short. *)
Definition points_of (plan : gmap string Value -> Exc (gmap string Change))
    (ending : LoopState -> LoopState) (docs : list (string * gmap string Value))
  : list LoopState :=
  initial :: loop_points plan docs initial ++
    match loop plan docs initial with
    | Finished st => [ending st]
    | Crashed _ _ => []
    end.

(** ** migrate_case_style.py *)

Module CaseStyle.

Definition LISTINGS_FIELD_MAP : list (string * string) :=
  [ ("acceptsStudents", "accepts_students");
    ("availableFrom", "available_from");
    ("availableFrom_unix", "available_from_unix");
    ("bathroomCount", "bathroom_count");
    ("coverImageUrl", "cover_image_url");
    ("createdAt", "created_at");
    ("createdAt_unix", "created_at_unix");
    ("descriptionEn", "description_en");
    ("descriptionEs", "description_es");
    ("hasAC", "has_ac");
    ("hasDoorman", "has_doorman");
    ("hasElevator", "has_elevator");
    ("hasLivingRoom", "has_living_room");
    ("hasWifi", "has_wifi");
    ("imageUrls", "image_urls");
    ("isFurnished", "is_furnished");
    ("landlordName", "landlord_name");
    ("landlordUid", "landlord_uid");
    ("minimumStayMonths", "minimum_stay_months");
    ("petsAllowed", "pets_allowed");
    ("propertyStrengthsEn", "property_strengths_en");
    ("propertyStrengthsEs", "property_strengths_es");
    ("rentalType", "rental_type");
    ("roomCount", "room_count");
    ("smokingAllowed", "smoking_allowed");
    ("sourceLanguage", "source_language");
    ("tenantStrengthsSearchedEn", "tenant_strengths_searched_en");
    ("tenantStrengthsSearchedEs", "tenant_strengths_searched_es");
    ("titleEn", "title_en");
    ("titleEs", "title_es");
    ("updatedAt", "updated_at");
    ("updatedAt_unix", "updated_at_unix") ].

Definition USERS_FIELD_MAP : list (string * string) :=
  [ ("bioEn", "bio_en");
    ("bioEs", "bio_es");
    ("createdAt", "created_at");
    ("createdAt_unix", "created_at_unix");
    ("displayName", "display_name");
    ("idVerificationStatus", "id_verification_status");
    ("isVerified", "is_verified");
    ("photoURL", "photo_url");
    ("propertyStrengthsSearchedEn", "property_strengths_searched_en");
    ("propertyStrengthsSearchedEs", "property_strengths_searched_es");
    ("sourceLanguage", "source_language");
    ("tenantStrengthsEn", "tenant_strengths_en");
    ("tenantStrengthsEs", "tenant_strengths_es");
    ("desiredMoveInDate", "desired_move_in_date");
    ("desiredMoveInDate_unix", "desired_move_in_date_unix");
    ("desiredMoveOutDate", "desired_move_out_date");
    ("desiredMoveOutDate_unix", "desired_move_out_date_unix");
    ("genderEn", "gender_en");
    ("genderEs", "gender_es");
    ("hasPets", "has_pets");
    ("minimumStayMonths", "minimum_stay_months");
    ("needsAC", "needs_ac");
    ("needsElevator", "needs_elevator");
    ("needsFurnished", "needs_furnished");
    ("needsLivingRoom", "needs_living_room");
    ("needsWifi", "needs_wifi");
    ("professionEn", "profession_en");
    ("professionEs", "profession_es");
    ("rentalType", "rental_type");
    ("roomistaPhotoURL", "roomista_photo_url");
    ("searchAddress", "search_address");
    ("searchBudget", "search_budget");
    ("searchLocation", "search_location");
    ("searchRadius", "search_radius");
    ("strengthsRoommateEn", "strengths_roommate_en");
    ("strengthsRoommateEs", "strengths_roommate_es") ].

Definition rename_fields (field_map : list (string * string)) (data : gmap string Value)
  : gmap string Change :=
  foldl (rename_step data) ∅ field_map.

(** Whether [old_name in data] holds for some entry of the field map. *)
Definition has_old_name (field_map : list (string * string)) (data : gmap string Value)
  : bool :=
  existsb (fun entry => bool_decide (is_Some (data !! fst entry))) field_map.

(** [updates_made]: set as soon as some document holds some old name. *)
Definition updates_made (field_map : list (string * string))
    (docs : list (string * gmap string Value)) : bool :=
  existsb (fun doc => has_old_name field_map (snd doc)) docs.

(** The two [if]s after the loop. *)
Definition ending (flag : bool) (st : LoopState) : LoopState :=
  let st' := if (0 <? docs_processed st)%nat
             then say (MsgDone (docs_processed st)) (do_final_commit st)
             else st in
  if negb flag then say MsgNoUpdates st' else st'.

Definition plan (field_map : list (string * string)) (data : gmap string Value)
  : Exc (gmap string Change) :=
  Ok (rename_fields field_map data).

Definition migrate_collection (field_map : list (string * string))
    (docs : list (string * gmap string Value)) : Outcome :=
  and_then (loop (plan field_map) docs initial) (ending (updates_made field_map docs)).

Definition migrate_collection_points (field_map : list (string * string))
    (docs : list (string * gmap string Value)) : list LoopState :=
  points_of (plan field_map) (ending (updates_made field_map docs)) docs.

End CaseStyle.

(** ** migrate_content_fields_i18n.py *)

Module ContentI18n.

(** The rules under ["users"] in [CONTENT_CONVERSION_MAP]. *)
Definition users_rules : list (string * list (string * string)) :=
  [ ("flatmate_traits",
     [ ("Independencia", "independence");
       ("Respeto", "respect");
       ("Confianza", "trustworthiness");
       ("Limpieza", "cleanliness");
       ("Sociabilidad", "sociability") ]);
    ("gender",
     [ ("Hombre", "male");
       ("Mujer", "female");
       ("Otro", "other") ]);
    ("profile_status",
     [ ("iniciado", "started");
       ("documento_creado", "document_created");
       ("completado", "completed");
       ("fallido", "failed") ]);
    ("property_strengths_searched",
     [ ("Encanto/Estilo", "charm_style");
       ("Insonorización", "sound_proofing");
       ("Luminosidad", "brightness");
       ("Vistas", "views");
       ("Ambiente comunitario", "community_atmosphere");
       ("Tamaño", "size") ]);
    ("rental_type",
     [ ("propiedadEntera", "entire_property");
       ("habitacion", "room") ]);
    ("role",
     [ ("inquilino", "tenant");
       ("casero", "landlord") ]);
    ("strengths_roommate",
     [ ("Flexibilidad y adaptación", "flexibility_and_adaptation");
       ("Comunicación abierta", "open_communication");
       ("Aporto buen ambiente", "i_bring_a_good_atmosphere");
       ("Respetuoso con el espacio", "respectful_of_space");
       ("Responsabilidad doméstica", "domestic_responsibility");
       ("Organización y limpieza", "organization_and_cleanliness") ]);
    ("tenant_strengths",
     [ ("Contractual Responsibility", "contractual_responsibility");
       ("Respect for the Community", "community_respect");
       ("Property care", "property_care");
       ("Clear Communication", "clear_communication") ]);
    ("id_verification_status",
     [ ("Verified", "verified");
       ("Pending", "pending");
       ("Not_started", "not_started");
       ("Failed", "failed") ]) ].

(** The rules under ["listings"] in [CONTENT_CONVERSION_MAP]. *)
Definition listings_rules : list (string * list (string * string)) :=
  [ ("property_strengths",
     [ ("Charm/Style", "charm_style");
       ("Soundproofing", "sound_proofing");
       ("Brightness", "brightness");
       ("Views", "views");
       ("Community Atmosphere", "community_atmosphere");
       ("Size", "size") ]);
    ("rental_type",
     [ ("entireProperty", "entire_property");
       ("room", "room") ]);
    ("tenant_strengths_searched",
     [ ("Contractual Responsibility", "contractual_responsibility");
       ("respect_for_the_community", "community_respect");
       ("Property care", "property_care");
       ("Clear Communication", "clear_communication") ]) ].

Definition CONTENT_CONVERSION_MAP : list (string * list (string * list (string * string))) :=
  [ ("users", users_rules); ("listings", listings_rules) ].

(** [d.get(k)] on a dictionary written as the list of its items; the keys
    of a dictionary are all different. *)
Fixpoint dict_get {A} (d : list (string * A)) (k : string) : option A :=
  match d with
  | [] => None
  | (k', v) :: rest => if String.eqb k' k then Some v else dict_get rest k
  end.

(** Python's [a != b] on the values that reach the comparison in
    [migrate_collection_content]: a string and its translation, or an item
    and itself.  A float NaN differs from itself. *)
Definition py_ne (a b : Value) : bool :=
  match a, b with
  | VNull, VNull => false
  | VBool x, VBool y => negb (Bool.eqb x y)
  | VInt x, VInt y => negb (x =? y)%Z
  | VFloat x, VFloat y => negb (SFeqb x y)
  | VStr x, VStr y => negb (String.eqb x y)
  | VTimestamp x, VTimestamp y => negb (x =? y)%Z
  | _, _ => true
  end.

(** [conversion_map.get(item, item)]: a list or a dictionary is not
    hashable, the lookup raises [TypeError]; the keys of the map are strings,
    so nothing but a string is found. *)
Definition translate_item (conversion_map : list (string * string)) (item : Value)
  : Exc Value :=
  match item with
  | VList _ | VMap _ => Raise TypeError
  | VStr s =>
      match dict_get conversion_map s with
      | Some t => Ok (VStr t)
      | None => Ok item
      end
  | _ => Ok item
  end.

(** The [for item in current_value] loop: the new list and [made_a_change]. *)
Fixpoint translate_list (conversion_map : list (string * string)) (items : list Value)
  : Exc (list Value * bool) :=
  match items with
  | [] => Ok ([], false)
  | item :: rest =>
      translated_item ← translate_item conversion_map item;
      '(new_list, made_a_change) ← translate_list conversion_map rest;
      Ok (translated_item :: new_list, py_ne translated_item item || made_a_change)
  end.

(** [if translated_value:] on the result of [conversion_map.get(s)]. *)
Definition str_truthy (s : string) : bool :=
  negb (String.eqb s "").

(** One turn of [for field, conversion_map in conversion_rules.items()]. *)
Definition convert_field (doc_data : gmap string Value)
    (update_payload : gmap string Change) (rule : string * list (string * string))
  : Exc (gmap string Change) :=
  let '(field, conversion_map) := rule in
  match doc_data !! field with
  | None => Ok update_payload
  | Some (VList current_value) =>
      '(new_list, made_a_change) ← translate_list conversion_map current_value;
      Ok (if made_a_change : bool
          then <[field := SetTo (VList new_list)]> update_payload
          else update_payload)
  | Some (VStr current_value) =>
      match dict_get conversion_map current_value with
      | Some translated_value =>
          if str_truthy translated_value
          then Ok (<[field := SetTo (VStr translated_value)]> update_payload)
          else Ok update_payload
      | None => Ok update_payload
      end
  | Some _ => Ok update_payload
  end.

Fixpoint convert_fields (conversion_rules : list (string * list (string * string)))
    (doc_data : gmap string Value) (update_payload : gmap string Change)
  : Exc (gmap string Change) :=
  match conversion_rules with
  | [] => Ok update_payload
  | rule :: rest =>
      update_payload' ← convert_field doc_data update_payload rule;
      convert_fields rest doc_data update_payload'
  end.

Definition plan (conversion_rules : list (string * list (string * string)))
    (doc_data : gmap string Value) : Exc (gmap string Change) :=
  convert_fields conversion_rules doc_data ∅.

(** [if updates_planned > 0: ... else: ...]; the counters are
    [docs_processed] (here [updates_planned]) and [docs_seen]
    (here [docs_processed]). *)
Definition ending (st : LoopState) : LoopState :=
  if (0 <? docs_processed st)%nat
  then say (MsgDoneOf (docs_processed st) (docs_seen st)) (do_final_commit st)
  else say MsgNoUpdates st.

Definition migrate_collection_content
    (conversion_rules : list (string * list (string * string)))
    (docs : list (string * gmap string Value)) : Outcome :=
  and_then (loop (plan conversion_rules) docs initial) ending.

Definition migrate_collection_content_points
    (conversion_rules : list (string * list (string * string)))
    (docs : list (string * gmap string Value)) : list LoopState :=
  points_of (plan conversion_rules) ending docs.

End ContentI18n.

(** ** migrate_data_schema.py *)

Module DataSchema.

(** [update_data[f'{field}_unix'] = int(data[field].timestamp())] under
    [field in data and isinstance(data[field], datetime)]. *)
Definition unix_step (data : gmap string Value) (update_data : gmap string Change)
    (field : string) : Exc (gmap string Change) :=
  match data !! field with
  | Some (VTimestamp us) =>
      n ← PyFloat.to_int (PyFloat.timestamp us);
      Ok (<[field +:+ "_unix" := SetTo (VInt n)]> update_data)
  | _ => Ok update_data
  end.

(** [data[field] / 1000.0] under [isinstance(data[field], (int, float))];
    [bool] is a subclass of [int]. *)
Definition seconds_of (v : Value) : option (Exc spec_float) :=
  match v with
  | VInt n => Some (x ← PyFloat.of_int n; Ok (PyFloat.div_1000 x))
  | VBool b => Some (x ← PyFloat.of_int (if b then 1 else 0); Ok (PyFloat.div_1000 x))
  | VFloat x => Some (Ok (PyFloat.div_1000 x))
  | _ => None
  end.

Definition date_step (data : gmap string Value) (update_data : gmap string Change)
    (field : string) : Exc (gmap string Change) :=
  match data !! field ≫= seconds_of with
  | Some seconds =>
      x ← seconds;
      us ← PyFloat.fromtimestamp x;
      Ok (<[field := SetTo (VTimestamp us)]> update_data)
  | None => Ok update_data
  end.

Fixpoint for_each (step : gmap string Change -> string -> Exc (gmap string Change))
    (fields : list string) (update_data : gmap string Change) : Exc (gmap string Change) :=
  match fields with
  | [] => Ok update_data
  | field :: rest => update_data' ← step update_data field; for_each step rest update_data'
  end.

Definition plan (data : gmap string Value) : Exc (gmap string Change) :=
  update_data ← for_each (unix_step data) ["availableFrom"; "availableUntil"] ∅;
  for_each (date_step data) ["createdAt"; "updatedAt"] update_data.

Definition migrate_listings (docs : list (string * gmap string Value)) : Outcome :=
  and_then (loop plan docs initial) finish.

Definition migrate_listings_points (docs : list (string * gmap string Value))
  : list LoopState :=
  points_of plan finish docs.

End DataSchema.

(** ** migrate_name_fields_i18n.py *)

Module NameI18n.

Definition fields_to_delete : list string :=
  [ "description_es"; "propertyStrengths_es"; "tenantStrengthsSearched_es";
    "title_es"; "sourceLanguage" ].

Definition fields_to_rename : list (string * string) :=
  [ ("availableUntil_unix", "available_until_unix");
    ("availableUntilUnix", "available_until_unix");
    ("availableUntil", "available_until");
    ("availableFromUnix", "available_from_unix");
    ("createdAtUnix", "created_at_unix");
    ("createdAt", "created_at");
    ("propertyStrengths", "property_strengths");
    ("tenantStrengthsSearched", "tenant_strengths_searched");
    ("updatedAtUnix", "updated_at_unix");
    ("updatedAt", "updated_at") ].

(** [if field in data: update_data[field] = firestore.DELETE_FIELD] *)
Definition delete_step (data : gmap string Value) (update_data : gmap string Change)
    (field : string) : gmap string Change :=
  match data !! field with
  | Some _ => <[field := DELETE_FIELD]> update_data
  | None => update_data
  end.

(** [if 'sourceLanguage' not in data: update_data['source_language'] = 'en'] *)
Definition add_source_language (data : gmap string Value) : gmap string Change :=
  match data !! "sourceLanguage" with
  | None => {[ "source_language" := SetTo (VStr "en") ]}
  | Some _ => ∅
  end.

Definition update_data_of (data : gmap string Value) : gmap string Change :=
  foldl (delete_step data)
    (foldl (rename_step data) (add_source_language data) fields_to_rename)
    fields_to_delete.

Definition plan (data : gmap string Value) : Exc (gmap string Change) :=
  Ok (update_data_of data).

Definition migrate_listings (docs : list (string * gmap string Value)) : Outcome :=
  and_then (loop plan docs initial) finish.

End NameI18n.

(** ** The store

    A collection maps document ids to field maps.  Committing a batch
    applies its updates in order; [update] on a document that does not
    exist makes the commit fail. *)

Definition commit_one (store : option (gmap string (gmap string Value))) (u : Staged)
  : option (gmap string (gmap string Value)) :=
  s ← store;
  data ← s !! fst u;
  Some (<[fst u := apply_update (snd u) data]> s).

Definition commit_batch (store : gmap string (gmap string Value)) (b : list Staged)
  : option (gmap string (gmap string Value)) :=
  foldl commit_one (Some store) b.

Definition commit_all (store : gmap string (gmap string Value)) (bs : list (list Staged))
  : option (gmap string (gmap string Value)) :=
  foldl (fun s b => s ≫= fun s => commit_batch s b) (Some store) bs.

(** ** migrate_case_style.py as a script: the import guard and [main] *)

Module Script.

Record World := mkWorld {
  config_found : bool;           (* [from config import config] succeeds *)
  credentials_exist : bool;      (* [os.path.exists(config.FIREBASE_SERVICE_ACCOUNT_KEY)] *)
  init_raises : bool;            (* [Certificate], [initialize_app] or [client] raises *)
  listings : list (string * gmap string Value);
  users : list (string * gmap string Value)
}.

Inductive Report :=
| ErrConfigNotFound
| SearchedPath
| ErrCredentialsNotFound
| ErrCriticalInit
| MigrationDone.

Inductive Event :=
| EvPrint (r : Report)
| EvStream (collection : string)
| EvCommit (collection : string) (b : list Staged)
| EvExit (code : Z).

(** How a block of statements ends. *)
Inductive Ctl :=
| Normal
| SystemExit (code : Z)
| Exception.

(** The body of the [try] in [main]. *)
Definition main_try (w : World) : list Event * Ctl :=
  if negb (credentials_exist w)
  then ([EvPrint ErrCredentialsNotFound], SystemExit 1)
  else if init_raises w then ([], Exception)
  else ([], Normal).

(** [except Exception as e: print(...); sys.exit(1)]: [SystemExit] is not an
    [Exception] and passes through. *)
Definition except_Exception (r : list Event * Ctl) : list Event * Ctl :=
  match snd r with
  | Exception => (fst r ++ [EvPrint ErrCriticalInit], SystemExit 1)
  | _ => r
  end.

Definition store_events (collection : string) (o : Outcome) : list Event :=
  EvStream collection :: map (EvCommit collection) (commits (final_state o)).

Definition main (w : World) : list Event * Ctl :=
  match except_Exception (main_try w) with
  | (evs, Normal) =>
      (evs
        ++ store_events "listings"
             (CaseStyle.migrate_collection CaseStyle.LISTINGS_FIELD_MAP (listings w))
        ++ store_events "users"
             (CaseStyle.migrate_collection CaseStyle.USERS_FIELD_MAP (users w))
        ++ [EvPrint MigrationDone], Normal)
  | r => r
  end.

(** The module body: the guarded import, then [main()]. *)
Definition script (w : World) : list Event * Ctl :=
  if negb (config_found w)
  then ([EvPrint ErrConfigNotFound; EvPrint SearchedPath], SystemExit 1)
  else main w.

(** What the process does, ending with its exit status. *)
Definition process (w : World) : list Event :=
  let '(evs, ctl) := script w in
  evs ++ [EvExit (match ctl with Normal => 0 | SystemExit c => c | Exception => 1 end)].

Definition is_error_report (e : Event) : bool :=
  match e with
  | EvPrint (ErrConfigNotFound | ErrCredentialsNotFound | ErrCriticalInit) => true
  | _ => false
  end.

Definition is_store_access (e : Event) : bool :=
  match e with
  | EvStream _ | EvCommit _ _ => true
  | _ => false
  end.

End Script.

(** ** Vocabulary of the properties *)

(** The batch in flight and every committed batch hold at most 499 updates. *)
Definition within_cap (st : LoopState) : Prop :=
  length (batch st) ≤ 499 ∧ Forall (fun b : list Staged => length b ≤ 499) (commits st).

(** [st'] is what follows [st] when its batch is committed as one unit and
    replaced: the commits of [st'] are those of [st] and then, as one more
    commit, the whole batch of [st]; the batch in flight of [st'] is empty;
    the count of staged documents is the same. *)
Definition committed_and_renewed (st st' : LoopState) : Prop :=
  commits st' = commits st ++ [batch st]
  ∧ batch st' = []
  ∧ docs_processed st' = docs_processed st.

(** In a sequence of states, a state whose batch holds 499 updates is
    followed by a state in which that batch is committed and replaced. *)
Fixpoint committed_when_full (pts : list LoopState) : Prop :=
  match pts with
  | [] => True
  | st :: rest =>
      (length (batch st) = 499 -> ∃ st', head rest = Some st' ∧ committed_and_renewed st st')
      ∧ committed_when_full rest
  end.

(** The staged updates of a run are all in its commits, in the order they
    were staged, each once; a run that an exception cut short has the last
    of them in the batch that was in flight. *)
Definition nothing_lost (o : Outcome) (staged : list Staged) : Prop :=
  match o with
  | Finished st => concat (commits st) = staged
  | Crashed _ st => concat (commits st) ++ batch st = staged
  end.

(** What holds each time the loop is at its head. *)
Definition loop_inv (st : LoopState) : Prop :=
  length (batch st) = docs_processed st mod 499
  ∧ length (commits st) = docs_processed st / 499
  ∧ Forall (fun b : list Staged => length b = 499) (commits st).

(** The committed updates of one document. *)
Definition updates_of (doc_id : string) (o : Outcome) : list Staged :=
  filter (fun u : Staged => fst u = doc_id) (concat (commits (final_state o))).

(** The store after all the commits of a run. *)
Definition store_after (store : gmap string (gmap string Value)) (o : Outcome)
  : option (gmap string (gmap string Value)) :=
  commit_all store (commits (final_state o)).

(** The documents of a stream are those of the store, each once. *)
Definition stream_of (store : gmap string (gmap string Value))
    (docs : list (string * gmap string Value)) : Prop :=
  NoDup (fst <$> docs) ∧ ∀ doc_id data, (doc_id, data) ∈ docs -> store !! doc_id = Some data.

(** What the three endings have in common: the batch stays, and is
    committed once more exactly when some document was staged. *)
Definition ending_like (ending : LoopState -> LoopState) : Prop :=
  ∀ st, batch (ending st) = batch st
        ∧ docs_processed (ending st) = docs_processed st
        ∧ commits (ending st)
          = if 0 <? docs_processed st then commits st ++ [batch st] else commits st.

(** [n] listings that each hold one camelCase field. *)
Definition listings_to_rename (n : nat) : list (string * gmap string Value) :=
  (fun i : nat => ("listing" +:+ pretty i, {[ "hasAC" := VBool true ]})) <$> seq 0 n.

(** The translation of a sequence in the words of the specification: each
    element is looked up in the value map and passed through unchanged when
    it is not a key. *)
Definition pass_through (value_map : list (string * string)) (item : Value) : Value :=
  match item with
  | VStr s =>
      match ContentI18n.dict_get value_map s with
      | Some t => VStr t
      | None => item
      end
  | _ => item
  end.

(** The items a dictionary lookup accepts: no list, no map. *)
Definition hashable (item : Value) : bool :=
  match item with
  | VList _ | VMap _ => false
  | _ => true
  end.

(** The hashable items that are equal to themselves: all but NaN. *)
Definition ordinary_item (item : Value) : bool :=
  match item with
  | VFloat S754_nan => false
  | _ => hashable item
  end.

(** The value of a field after a translation rule, in the words of the
    specification: a string is replaced by its translation, the items of a
    sequence are passed through the value map, anything else is left. *)
Definition translated (value_map : list (string * string)) (v : Value) : Value :=
  match v with
  | VStr s =>
      match ContentI18n.dict_get value_map s with
      | Some t => if ContentI18n.str_truthy t then VStr t else v
      | None => v
      end
  | VList items => VList (pass_through value_map <$> items)
  | _ => v
  end.

(** No translation of the value map is translated further to something
    else. *)
Definition settled (value_map : list (string * string)) : Prop :=
  Forall (fun entry : string * string =>
            ContentI18n.dict_get value_map (snd entry) = None
            ∨ ContentI18n.dict_get value_map (snd entry) = Some (snd entry))
         value_map.

(** * Properties *)

Ltac Zify.zify_post_hook ::= Z.div_mod_to_equations.

(** ** Updates applied to a document *)

Lemma lookup_apply_update (u : gmap string Change) (data : gmap string Value) k :
  apply_update u data !! k =
    match u !! k with
    | Some c => apply_change c
    | None => data !! k
    end.
Proof.
  unfold apply_update. rewrite lookup_merge.
  destruct (u !! k) as [c|], (data !! k); simpl; try reflexivity.
Qed.

Lemma apply_update_empty (data : gmap string Value) : apply_update ∅ data = data.
Proof. apply map_eq; intros k. rewrite lookup_apply_update, lookup_empty. reflexivity. Qed.

Lemma truthy_false (u : gmap string Change) : truthy u = false -> u = ∅.
Proof.
  unfold truthy. intros H. apply bool_decide_eq_false in H.
  apply map_size_empty_iff. destruct (size u); [reflexivity | exfalso; apply H; discriminate].
Qed.

Lemma truthy_true (u : gmap string Change) : truthy u = true <-> u ≠ ∅.
Proof.
  unfold truthy. rewrite bool_decide_eq_true. rewrite <- (map_size_empty_iff u). tauto.
Qed.

(** ** The loop *)

Ltac simpl_state :=
  cbn [batch docs_processed docs_seen commits output do_update do_commit_and_renew
       do_final_commit say see List.last length app concat] in *.

Lemma visit_points_cases doc_id u st :
  visit_points doc_id u st = []
    ∧ truthy u = false
  ∨ visit_points doc_id u st = [do_update doc_id u st]
    ∧ truthy u = true ∧ S (docs_processed st) mod 499 ≠ 0
  ∨ visit_points doc_id u st = [do_update doc_id u st; do_commit_and_renew (do_update doc_id u st)]
    ∧ truthy u = true ∧ S (docs_processed st) mod 499 = 0.
Proof.
  unfold visit_points. destruct (truthy u); [| left; done].
  right. cbn [docs_processed do_update]. destruct (Nat.eqb_spec (S (docs_processed st) mod 499) 0); [right | left]; done.
Qed.

Lemma visit_inv doc_id u st : loop_inv st -> loop_inv (visit doc_id u st).
Proof.
  intros (Hb & Hc & Hf). unfold visit.
  destruct (visit_points_cases doc_id u st) as [[-> _] | [[-> [_ Hm]] | [-> [_ Hm]]]];
    unfold loop_inv; simpl_state.
  - done.
  - rewrite length_app; simpl_state. repeat split; [lia | lia | done].
  - repeat split; [lia | rewrite length_app; simpl_state; lia |].
    apply Forall_app; split; [done |]. constructor; [| constructor].
    rewrite length_app; simpl_state. lia.
Qed.

Lemma loop_inv_initial : loop_inv initial.
Proof. unfold loop_inv; simpl_state. repeat split; constructor. Qed.

Lemma loop_inv_within_cap st : loop_inv st -> within_cap st ∧ length (batch st) < 499.
Proof.
  intros (Hb & _ & Hf). unfold within_cap. repeat split; [lia | | lia].
  eapply Forall_impl; [exact Hf |]. cbn beta. intros; lia.
Qed.

Lemma visit_points_within_cap doc_id u st :
  loop_inv st -> Forall within_cap (visit_points doc_id u st).
Proof.
  intros Hinv. pose proof (loop_inv_within_cap _ Hinv) as [[Hb Hf] Hlt].
  assert (within_cap (do_update doc_id u st)) as H1.
  { split; simpl_state; [rewrite length_app; simpl_state; lia | done]. }
  destruct (visit_points_cases doc_id u st) as [[-> _] | [[-> _] | [-> _]]].
  - constructor.
  - constructor; [done | constructor].
  - constructor; [done |]. constructor; [| constructor].
    split; simpl_state; [lia |]. apply Forall_app; split; [done |].
    constructor; [| constructor]. rewrite length_app; simpl_state; lia.
Qed.

Lemma committed_when_full_app l1 l2 :
  committed_when_full l1 -> committed_when_full l2 ->
  (∀ st, last l1 = Some st -> length (batch st) ≠ 499) ->
  committed_when_full (l1 ++ l2).
Proof.
  induction l1 as [| st l1 IH]; simpl; [done |].
  intros [Hh Ht] H2 Hlast. split.
  - intros H499. destruct l1 as [| st' l1]; simpl in *.
    + exfalso. by apply (Hlast st).
    + by apply Hh.
  - apply IH; [done | done |]. intros st' Hst'. apply Hlast.
    destruct l1; [done | exact Hst'].
Qed.

Lemma visit_points_committed doc_id u st :
  loop_inv st ->
  committed_when_full (visit_points doc_id u st)
  ∧ ∀ p, last (visit_points doc_id u st) = Some p -> length (batch p) ≠ 499.
Proof.
  intros (Hb & _ & _).
  destruct (visit_points_cases doc_id u st) as [[-> _] | [[-> [_ Hm]] | [-> [_ Hm]]]];
    cbn [committed_when_full head last].
  - done.
  - split; [split; [| done] |].
    + simpl_state. rewrite length_app; simpl_state. lia.
    + intros p [= <-]; simpl_state. rewrite length_app; simpl_state. lia.
  - split; [split; [| done] |].
    + intros _. exists (do_commit_and_renew (do_update doc_id u st)).
      split; [done |]. unfold committed_and_renewed. by simpl_state.
    + intros p [= <-]; simpl_state. lia.
Qed.

Section LoopFacts.

Variable plan : gmap string Value -> Exc (gmap string Change).

Lemma loop_points_ok docs : ∀ st,
  loop_inv st ->
  Forall within_cap (loop_points plan docs st)
  ∧ committed_when_full (loop_points plan docs st)
  ∧ (∀ p, last (loop_points plan docs st) = Some p -> length (batch p) ≠ 499).
Proof.
  induction docs as [| [doc_id data] rest IH]; intros st Hinv; simpl.
  - repeat split; [constructor | done].
  - destruct (plan data) as [u | e]; [| repeat split; [constructor | done]].
    destruct (IH _ (visit_inv doc_id u st Hinv)) as (IH1 & IH2 & IH3).
    destruct (visit_points_committed doc_id u st Hinv) as [Hc Hl].
    repeat split.
    + apply Forall_app; split; [by apply visit_points_within_cap | done].
    + by apply committed_when_full_app.
    + intros p. rewrite last_app. destruct (last (loop_points plan rest _)) eqn:E.
      * intros [= <-]. by apply IH3.
      * apply Hl.
Qed.

Lemma loop_finished_inv docs : ∀ st st',
  loop_inv st -> loop plan docs st = Finished st' -> loop_inv st'.
Proof.
  induction docs as [| [doc_id data] rest IH]; intros st st' Hinv; simpl.
  - by intros [= <-].
  - destruct (plan data) as [u | e]; [| done]. apply IH. by apply visit_inv.
Qed.

Lemma loop_crashed_inv docs : ∀ st st' e,
  loop_inv st -> loop plan docs st = Crashed e st' -> loop_inv st'.
Proof.
  induction docs as [| [doc_id data] rest IH]; intros st st' e Hinv; simpl.
  - done.
  - destruct (plan data) as [u | e']; [| by intros [= _ <-]].
    apply IH. by apply visit_inv.
Qed.

Lemma visit_staged doc_id u st :
  concat (commits (visit doc_id u st)) ++ batch (visit doc_id u st)
    = (concat (commits st) ++ batch st) ++ (if truthy u then [(doc_id, u)] else [])
  ∧ docs_processed (visit doc_id u st)
    = docs_processed st + (if truthy u then 1 else 0).
Proof.
  unfold visit.
  destruct (visit_points_cases doc_id u st) as [[-> ->] | [[-> [-> _]] | [-> [-> _]]]];
    simpl_state.
  - rewrite app_nil_r. split; [done | lia].
  - rewrite app_assoc. split; [done | lia].
  - rewrite concat_app; simpl_state. rewrite !app_nil_r, app_assoc. split; [done | lia].
Qed.

Lemma loop_staged docs : ∀ st st',
  loop plan docs st = Finished st' ->
  concat (commits st') ++ batch st'
    = (concat (commits st) ++ batch st) ++ staged_of plan docs
  ∧ docs_processed st' = docs_processed st + length (staged_of plan docs).
Proof.
  induction docs as [| [doc_id data] rest IH]; intros st st'; simpl.
  - intros [= <-]. rewrite app_nil_r. split; [done | lia].
  - destruct (plan data) as [u | e]; [| done]. intros Hl.
    destruct (IH _ _ Hl) as [-> ->].
    destruct (visit_staged doc_id u st) as [-> ->].
    destruct (truthy u); simpl.
    + rewrite <- !app_assoc. split; [done | lia].
    + rewrite !app_nil_r. split; [done | lia].
Qed.

(** The same for a run that an exception cuts short: what was staged
    before it is committed or in the batch in flight. *)
Lemma loop_crashed_staged docs : ∀ st st' e,
  loop plan docs st = Crashed e st' ->
  concat (commits st') ++ batch st'
    = (concat (commits st) ++ batch st) ++ staged_of plan docs.
Proof.
  induction docs as [| [doc_id data] rest IH]; intros st st' e; simpl.
  - done.
  - destruct (plan data) as [u | e']; [| intros [= _ <-]; by rewrite app_nil_r].
    intros Hl. rewrite (IH _ _ _ Hl).
    destruct (visit_staged doc_id u st) as [-> _].
    destruct (truthy u); simpl.
    + by rewrite <- !app_assoc.
    + by rewrite !app_nil_r.
Qed.

Lemma loop_total docs : ∀ st,
  (∀ doc_id data, (doc_id, data) ∈ docs -> ∃ u, plan data = Ok u) ->
  ∃ st', loop plan docs st = Finished st'.
Proof.
  induction docs as [| [doc_id data] rest IH]; intros st Hok; simpl.
  - eauto.
  - destruct (Hok doc_id data) as [u ->]; [left |].
    apply IH. intros i d Hin. apply (Hok i d). by right.
Qed.

End LoopFacts.

(** ** How the scripts end *)

Lemma finish_ending_like : ending_like finish.
Proof.
  intros st. unfold finish. destruct (0 <? docs_processed st); simpl_state; done.
Qed.

Lemma case_style_ending_like flag : ending_like (CaseStyle.ending flag).
Proof.
  intros st. unfold CaseStyle.ending.
  destruct (0 <? docs_processed st), flag; simpl_state; done.
Qed.

Lemma content_ending_like : ending_like ContentI18n.ending.
Proof.
  intros st. unfold ContentI18n.ending. destruct (0 <? docs_processed st); simpl_state; done.
Qed.

Lemma ending_within_cap ending st :
  ending_like ending -> loop_inv st ->
  within_cap (ending st) ∧ length (batch (ending st)) ≠ 499.
Proof.
  intros He Hinv. destruct (He st) as (Hb & _ & Hc).
  destruct (loop_inv_within_cap _ Hinv) as [[Hle Hf] Hlt].
  unfold within_cap. rewrite Hb, Hc. repeat split; [lia | | lia].
  destruct (0 <? docs_processed st); [| done].
  apply Forall_app; split; [done |]. constructor; [lia | constructor].
Qed.

Lemma points_of_ok plan ending docs :
  ending_like ending ->
  Forall within_cap (points_of plan ending docs)
  ∧ committed_when_full (points_of plan ending docs).
Proof.
  intros He. unfold points_of.
  destruct (loop_points_ok plan docs initial loop_inv_initial) as (H1 & H2 & H3).
  assert (Forall within_cap
            match loop plan docs initial with
            | Finished st => [ending st]
            | Crashed _ _ => []
            end
          ∧ committed_when_full
            match loop plan docs initial with
            | Finished st => [ending st]
            | Crashed _ _ => []
            end) as [H4 H5].
  { destruct (loop plan docs initial) as [st |] eqn:E; [| split; [constructor | done]].
    pose proof (loop_finished_inv plan docs _ _ loop_inv_initial E) as Hinv.
    destruct (ending_within_cap ending st He Hinv) as [Hw Hne].
    split; [constructor; [done | constructor] |].
    cbn [committed_when_full head]. split; [| done]. intros Hfull. by destruct Hne. }
  split.
  - constructor; [apply (loop_inv_within_cap _ loop_inv_initial) |].
    apply Forall_app; split; done.
  - cbn [committed_when_full]. split.
    + intros Habs. simpl_state. discriminate.
    + by apply committed_when_full_app.
Qed.

(** The last state of the list is the one the run ends in. *)
Lemma points_of_last plan ending docs st :
  loop plan docs initial = Finished st ->
  last (points_of plan ending docs) = Some (ending st).
Proof.
  intros E. unfold points_of. rewrite E.
  change (initial :: ?l ++ [?x]) with ((initial :: l) ++ [x]). apply last_snoc.
Qed.

(** ** What is committed *)

Lemma run_committed plan ending docs st :
  ending_like ending ->
  loop plan docs initial = Finished st ->
  concat (commits (ending st)) = staged_of plan docs
  ∧ docs_processed (ending st) = length (staged_of plan docs)
  ∧ length (commits (ending st))
    = length (staged_of plan docs) / 499
      + (if 0 <? length (staged_of plan docs) then 1 else 0)
  ∧ (0 < length (staged_of plan docs) ->
     ∃ b, last (commits (ending st)) = Some b
          ∧ length b = length (staged_of plan docs) mod 499).
Proof.
  intros He E. destruct (He st) as (Hb & Hn & Hc).
  destruct (loop_staged plan docs _ _ E) as [Hs Hd].
  destruct (loop_finished_inv plan docs _ _ loop_inv_initial E) as (Ib & Ic & _).
  simpl_state. rewrite Nat.add_0_l in Hd. rewrite Hd in *. rewrite Hn, Hc. clear Hn Hc.
  destruct (Nat.ltb_spec 0 (length (staged_of plan docs))) as [Hpos | Hz].
  - rewrite concat_app; simpl_state. rewrite app_nil_r.
    repeat split; [done | rewrite length_app; simpl_state; lia |].
    intros _. exists (batch st). rewrite last_snoc. split; [done | lia].
  - assert (batch st = []) as Hnil by (apply length_zero_iff_nil; lia).
    rewrite Hnil, app_nil_r in Hs. repeat split; [done | lia | lia].
Qed.

(** The scripts whose per-document code cannot raise run to their end. *)
Lemma case_style_finishes field_map docs :
  ∃ st, loop (CaseStyle.plan field_map) docs initial = Finished st
        ∧ CaseStyle.migrate_collection field_map docs
          = Finished (CaseStyle.ending (CaseStyle.updates_made field_map docs) st).
Proof.
  destruct (loop_total (CaseStyle.plan field_map) docs initial) as [st E].
  { intros; unfold CaseStyle.plan; eauto. }
  exists st. split; [done |]. unfold CaseStyle.migrate_collection. by rewrite E.
Qed.

Lemma name_i18n_finishes docs :
  ∃ st, loop NameI18n.plan docs initial = Finished st
        ∧ NameI18n.migrate_listings docs = Finished (finish st).
Proof.
  destruct (loop_total NameI18n.plan docs initial) as [st E].
  { intros; unfold NameI18n.plan; eauto. }
  exists st. split; [done |]. unfold NameI18n.migrate_listings. by rewrite E.
Qed.

(** The number of commits of the renaming script: one per full batch, and
    one more whenever something was staged, also when nothing is left. *)
Lemma case_style_commit_count field_map docs :
  let u := length (staged_of (CaseStyle.plan field_map) docs) in
  let st := final_state (CaseStyle.migrate_collection field_map docs) in
  length (commits st) = u / 499 + (if 0 <? u then 1 else 0)
  ∧ docs_processed st = u.
Proof.
  destruct (case_style_finishes field_map docs) as (st & E & ->). cbn [final_state].
  destruct (run_committed _ _ docs st
              (case_style_ending_like (CaseStyle.updates_made field_map docs)) E)
    as (_ & H2 & H3 & _).
  done.
Qed.

(** What a run commits, whether it ends or is cut short. *)
Lemma run_nothing_lost plan ending docs :
  ending_like ending ->
  nothing_lost (and_then (loop plan docs initial) ending) (staged_of plan docs).
Proof.
  intros He. destruct (loop plan docs initial) as [st | e st] eqn:E;
    cbn [and_then nothing_lost].
  - by destruct (run_committed plan ending docs st He E) as [-> _].
  - by rewrite (loop_crashed_staged plan docs _ _ _ E).
Qed.

(** C8: the batch in flight never holds more than 499 staged updates; a
    state whose batch holds 499 is followed by a state whose commits are the
    earlier ones and then that whole batch, as one commit, and whose batch
    in flight is empty; no committed batch holds more than 499; the
    committed batches hold, in order and each once, the updates that were
    staged (in a run that an exception cuts short, together with the batch
    in flight).  In [migrate_collection] and in
    [migrate_collection_content], for every table of rules and every stream
    of documents, at every state of the run. *)
Theorem batch_size_invariant
    (field_map : list (string * string))
    (conversion_rules : list (string * list (string * string)))
    (docs : list (string * gmap string Value)) :
  (Forall within_cap (CaseStyle.migrate_collection_points field_map docs)
   ∧ committed_when_full (CaseStyle.migrate_collection_points field_map docs)
   ∧ within_cap (final_state (CaseStyle.migrate_collection field_map docs))
   ∧ nothing_lost (CaseStyle.migrate_collection field_map docs)
       (staged_of (CaseStyle.plan field_map) docs))
  ∧ (Forall within_cap (ContentI18n.migrate_collection_content_points conversion_rules docs)
     ∧ committed_when_full
         (ContentI18n.migrate_collection_content_points conversion_rules docs)
     ∧ within_cap
         (final_state (ContentI18n.migrate_collection_content conversion_rules docs))
     ∧ nothing_lost (ContentI18n.migrate_collection_content conversion_rules docs)
         (staged_of (ContentI18n.plan conversion_rules) docs)).
Proof.
  split.
  - destruct (points_of_ok (CaseStyle.plan field_map)
                (CaseStyle.ending (CaseStyle.updates_made field_map docs)) docs
                (case_style_ending_like _)) as [H1 H2].
    split; [exact H1 | split; [exact H2 |]]. split.
    + destruct (case_style_finishes field_map docs) as (st & E & ->). cbn [final_state].
      apply (ending_within_cap _ _ (case_style_ending_like _)).
      exact (loop_finished_inv _ docs _ _ loop_inv_initial E).
    + apply run_nothing_lost, case_style_ending_like.
  - destruct (points_of_ok (ContentI18n.plan conversion_rules) ContentI18n.ending docs
                content_ending_like) as [H1 H2].
    split; [exact H1 | split; [exact H2 |]]. split.
    + unfold ContentI18n.migrate_collection_content.
      destruct (loop (ContentI18n.plan conversion_rules) docs initial) as [st | e st] eqn:E;
        cbn [and_then final_state].
      * apply (ending_within_cap _ _ content_ending_like).
        exact (loop_finished_inv _ docs _ _ loop_inv_initial E).
      * apply loop_inv_within_cap.
        exact (loop_crashed_inv _ docs _ _ _ loop_inv_initial E).
    + apply run_nothing_lost, content_ending_like.
Qed.

(** ** The number of commits *)

Lemma staged_of_all plan (docs : list (string * gmap string Value)) :
  Forall (fun doc => ∃ u, plan (snd doc) = Ok u ∧ truthy u = true) docs ->
  staged_of plan docs = (fun doc => (fst doc, match plan (snd doc) with
                                               | Ok u => u
                                               | Raise _ => ∅
                                               end)) <$> docs.
Proof.
  induction 1 as [| [doc_id data] docs (u & Hu & Ht) _ IH]; [reflexivity |].
  cbn [staged_of fmap list_fmap fst snd] in *. rewrite Hu, Ht. by rewrite IH.
Qed.

Lemma staged_of_none plan (docs : list (string * gmap string Value)) :
  Forall (fun doc => ∃ u, plan (snd doc) = Ok u ∧ truthy u = false) docs ->
  staged_of plan docs = [].
Proof.
  induction 1 as [| [doc_id data] docs (u & Hu & Ht) _ IH]; [reflexivity |].
  cbn [staged_of snd] in *. by rewrite Hu, Ht.
Qed.

Lemma listings_to_rename_staged n :
  length (staged_of (CaseStyle.plan CaseStyle.LISTINGS_FIELD_MAP) (listings_to_rename n)) = n.
Proof.
  rewrite staged_of_all.
  - unfold listings_to_rename. by rewrite !length_fmap, length_seq.
  - unfold listings_to_rename. apply Forall_fmap, Forall_forall. intros i _.
    eexists. split; [reflexivity |]. vm_compute. reflexivity.
Qed.

(** C2, at a collection of 499 listings that all need an update:
    [migrate_collection] commits twice, first the batch of 499 and then,
    because [docs_processed > 0], the new batch that is still empty; it
    reports 499 updated documents. *)
Theorem commits_at_499_listings :
  let st := final_state
              (CaseStyle.migrate_collection CaseStyle.LISTINGS_FIELD_MAP
                 (listings_to_rename 499)) in
  length (commits st) = 2
  ∧ length <$> commits st = [499; 0]
  ∧ docs_processed st = 499
  ∧ last (output st) = Some (MsgDone 499).
Proof.
  cbv zeta.
  destruct (case_style_finishes CaseStyle.LISTINGS_FIELD_MAP (listings_to_rename 499))
    as (st & E & ->). cbn [final_state].
  destruct (run_committed _ _ _ st
              (case_style_ending_like
                 (CaseStyle.updates_made CaseStyle.LISTINGS_FIELD_MAP
                    (listings_to_rename 499))) E) as (Hc & Hn & Hl & Hlast).
  rewrite listings_to_rename_staged in *.
  destruct (loop_finished_inv _ _ _ _ loop_inv_initial E) as (Ib & Ic & If).
  destruct (case_style_ending_like
              (CaseStyle.updates_made CaseStyle.LISTINGS_FIELD_MAP
                 (listings_to_rename 499)) st) as (Hb & Hd & Hcs).
  assert (docs_processed st = 499) as Hst by congruence.
  rewrite Hst in *.
  change (0 <? 499) with true in Hcs.
  change (499 mod 499) with 0 in *. change (499 / 499) with 1 in *.
  split; [exact Hl |]. split; [| split; [exact Hn |]].
  - rewrite Hcs, fmap_app. cbn [fmap list_fmap]. rewrite Ib.
    destruct (commits st) as [| b [| b' bs]]; [discriminate | | discriminate].
    apply Forall_cons in If as [Hb499 _]. cbn [fmap list_fmap app]. by rewrite Hb499.
  - unfold CaseStyle.ending. rewrite Hst. change (0 <? 499) with true.
    assert (CaseStyle.updates_made CaseStyle.LISTINGS_FIELD_MAP (listings_to_rename 499)
            = true) as -> by (vm_compute; reflexivity).
    cbn [negb]. simpl_state. by rewrite last_snoc.
Qed.

Lemma replicate_lengths (bs : list (list Staged)) c :
  Forall (fun b => length b = c) bs -> length <$> bs = replicate (length bs) c.
Proof. induction 1 as [| b bs Hb _ IH]; [reflexivity |]. cbn. by rewrite Hb, IH. Qed.

(** The sizes of the committed batches of a run that stages [u] documents:
    [u / 499] full batches, then what is left, also when nothing is left. *)
Lemma commit_sizes plan ending docs st :
  ending_like ending ->
  loop plan docs initial = Finished st ->
  let u := length (staged_of plan docs) in
  length <$> commits (ending st)
    = replicate (u / 499) 499 ++ (if 0 <? u then [u mod 499] else []).
Proof.
  intros He E u. destruct (He st) as (_ & _ & Hc).
  destruct (loop_staged plan docs _ _ E) as [_ Hd].
  destruct (loop_finished_inv plan docs _ _ loop_inv_initial E) as (Ib & Ic & If).
  simpl_state. rewrite Nat.add_0_l in Hd. fold u in Hd. rewrite Hd in *. rewrite Hc.
  rewrite <- Ic, <- (replicate_lengths _ _ If).
  destruct (0 <? u); [| by rewrite app_nil_r].
  rewrite fmap_app. cbn [fmap list_fmap]. by rewrite Ib.
Qed.

(** 1000 listings that all need an update: three commits, of 499, 499 and
    2 updates. *)
Lemma commits_at_1000_listings :
  length <$> commits (final_state
      (CaseStyle.migrate_collection CaseStyle.LISTINGS_FIELD_MAP (listings_to_rename 1000)))
  = [499; 499; 2].
Proof.
  destruct (case_style_finishes CaseStyle.LISTINGS_FIELD_MAP (listings_to_rename 1000))
    as (st & E & ->). cbn [final_state].
  rewrite (commit_sizes _ _ _ st (case_style_ending_like _) E).
  rewrite listings_to_rename_staged. reflexivity.
Qed.

(** ** Renaming *)

Lemma rename_fields_snoc field_map entry data :
  CaseStyle.rename_fields (field_map ++ [entry]) data
  = rename_step data (CaseStyle.rename_fields field_map data) entry.
Proof. unfold CaseStyle.rename_fields. by rewrite foldl_app. Qed.

Lemma rename_fold_nonempty data field_map : ∀ u0 : gmap string Change,
  foldl (rename_step data) u0 field_map ≠ ∅
  <-> u0 ≠ ∅ ∨ CaseStyle.has_old_name field_map data = true.
Proof.
  induction field_map as [| [old new] rest IH]; intros u0; cbn [foldl CaseStyle.has_old_name existsb fst].
  - split; [by left | by intros [? | ?]].
  - rewrite IH. unfold rename_step. destruct (data !! old) as [v |] eqn:E.
    + rewrite bool_decide_eq_true_2 by eauto. cbn [orb].
      split; [by right | intros _; left; apply insert_non_empty].
    + rewrite bool_decide_eq_false_2 by (intros [? ?]; congruence). cbn [orb]. done.
Qed.

Lemma rename_fields_truthy field_map data :
  truthy (CaseStyle.rename_fields field_map data) = CaseStyle.has_old_name field_map data.
Proof.
  apply eq_true_iff_eq. rewrite truthy_true. unfold CaseStyle.rename_fields.
  rewrite rename_fold_nonempty. split; [intros [? | ?]; done | by right].
Qed.

(** The keys of the dictionary built by the renaming loop. *)
Lemma rename_fold_keys data field_map : ∀ (u0 : gmap string Change) k,
  is_Some (foldl (rename_step data) u0 field_map !! k) ->
  is_Some (u0 !! k) ∨ k ∈ field_map.*1 ∨ k ∈ field_map.*2.
Proof.
  induction field_map as [| [old new] rest IH]; intros u0 k; cbn [foldl fmap list_fmap fst snd].
  - by left.
  - intros H. apply IH in H as [H | [H | H]].
    + unfold rename_step in H. destruct (data !! old); [| by left].
      destruct (decide (k = old)) as [-> | ?]; [right; left; left |].
      rewrite lookup_insert_ne in H by done.
      destruct (decide (k = new)) as [-> | ?]; [right; right; left |].
      rewrite lookup_insert_ne in H by done. by left.
    + right; left. by right.
    + right; right. by right.
Qed.

Lemma rename_fold_other data field_map : ∀ (u0 : gmap string Change) k,
  k ∉ field_map.*1 -> k ∉ field_map.*2 ->
  foldl (rename_step data) u0 field_map !! k = u0 !! k.
Proof.
  induction field_map as [| [old new] rest IH]; intros u0 k H1 H2; cbn [foldl]; [done |].
  cbn [fmap list_fmap fst snd] in *. apply not_elem_of_cons in H1 as [? ?], H2 as [? ?].
  rewrite IH by done. unfold rename_step. destruct (data !! old); [| done].
  by rewrite !lookup_insert_ne.
Qed.

(** What the renaming loop leaves under the two names of an entry whose old
    name is in the document and whose new name is not, when no other
    entry at work in this document writes either name. *)
Lemma rename_fold_entry data old new v field_map : ∀ u0 : gmap string Change,
  (old, new) ∈ field_map ->
  data !! old = Some v -> data !! new = None ->
  (∀ old' new', (old', new') ∈ field_map -> is_Some (data !! old') ->
     (new' = new -> old' = old) ∧ new' ≠ old) ->
  foldl (rename_step data) u0 field_map !! new = Some (SetTo v)
  ∧ foldl (rename_step data) u0 field_map !! old = Some DELETE_FIELD.
Proof.
  induction field_map as [| [old' new'] rest IH] using rev_ind; intros u0 Hin Hold Hnew Hside.
  - by apply elem_of_nil in Hin.
  - rewrite foldl_app. cbn [foldl]. unfold rename_step at 1 3.
    assert (old ≠ new) as Hne by (intros ->; congruence).
    destruct (data !! old') as [v' |] eqn:E.
    + destruct (Hside old' new') as [HA HB]; [set_solver | eauto |].
      assert (old' ≠ new) as Hon by (intros ->; congruence).
      destruct (decide (new' = new)) as [-> | Hnn].
      * specialize (HA eq_refl) as ->. assert (v' = v) as -> by congruence.
        rewrite lookup_insert_ne, lookup_insert_eq, lookup_insert_eq; done.
      * apply elem_of_app in Hin as [Hin | Hin]; [| set_solver].
        destruct (IH u0 Hin Hold Hnew) as [IH1 IH2].
        { intros o n Ho. apply Hside. set_solver. }
        rewrite !(lookup_insert_ne _ _ new) by done. split; [done |].
        destruct (decide (old' = old)) as [-> | ?]; [by rewrite lookup_insert_eq |].
        by rewrite !lookup_insert_ne.
    + apply elem_of_app in Hin as [Hin | Hin]; [| set_solver].
      apply IH; [done | done | done |]. intros o n Ho. apply Hside. set_solver.
Qed.

(** ** Commits applied to the store *)

Lemma commit_one_none (b : list Staged) : foldl commit_one None b = None.
Proof. induction b as [| u b IH]; [reflexivity | exact IH]. Qed.

Lemma commit_all_concat (bs : list (list Staged)) : ∀ store,
  commit_all store bs = foldl commit_one (Some store) (concat bs).
Proof.
  unfold commit_all.
  assert (∀ s : option (gmap string (gmap string Value)),
            foldl (fun s b => s ≫= fun s => commit_batch s b) s bs
            = foldl commit_one s (concat bs)) as H; [| intros; apply H].
  induction bs as [| b bs IH]; intros s; [reflexivity |].
  cbn [foldl concat]. rewrite foldl_app, IH. f_equal.
  destruct s as [s |]; [reflexivity |]. cbn. by rewrite commit_one_none.
Qed.

Lemma commit_one_dom (b : list Staged) : ∀ store store',
  foldl commit_one (Some store) b = Some store' -> dom store' = dom store.
Proof.
  induction b as [| [doc_id u] b IH]; intros store store'; cbn [foldl].
  - by intros [= ->].
  - unfold commit_one at 2. cbn [mbind option_bind fst snd].
    destruct (store !! doc_id) as [data |] eqn:E; cbn [mbind option_bind].
    + intros H. rewrite (IH _ _ H). rewrite dom_insert_L.
      apply elem_of_dom_2 in E. set_solver.
    + by rewrite commit_one_none.
Qed.

(** Committing what a run staged, on the store the documents were read
    from: every streamed document ends as its update dictionary applied to
    what was read, and nothing else changes. *)
Lemma commit_staged plan (docs : list (string * gmap string Value)) : ∀ store,
  stream_of store docs ->
  (∀ doc_id data, (doc_id, data) ∈ docs -> ∃ u, plan data = Ok u) ->
  ∃ store',
    foldl commit_one (Some store) (staged_of plan docs) = Some store'
    ∧ (∀ doc_id data u, (doc_id, data) ∈ docs -> plan data = Ok u ->
         store' !! doc_id = Some (apply_update u data))
    ∧ (∀ doc_id, doc_id ∉ docs.*1 -> store' !! doc_id = store !! doc_id).
Proof.
  induction docs as [| [doc_id data] rest IH]; intros store [Hnd Hst] Hok.
  - exists store. split; [done |]. split; [| done].
    intros ? ? ? Hin. by apply elem_of_nil in Hin.
  - cbn [fmap list_fmap fst] in Hnd. apply NoDup_cons in Hnd as [Hnotin Hnd].
    destruct (Hok doc_id data) as [u Hu]; [left |].
    pose proof (Hst doc_id data ltac:(left)) as Hdoc.
    set (store1 := if truthy u then <[doc_id := apply_update u data]> store else store).
    assert (store1 !! doc_id = Some (apply_update u data)) as H1.
    { unfold store1. destruct (truthy u) eqn:Ht; [by rewrite lookup_insert_eq |].
      apply truthy_false in Ht as ->. by rewrite apply_update_empty. }
    assert (∀ i, i ≠ doc_id -> store1 !! i = store !! i) as H2.
    { intros i Hi. unfold store1. destruct (truthy u); [by rewrite lookup_insert_ne | done]. }
    destruct (IH store1) as (store' & Hc & Hin & Hout).
    { split; [done |]. intros i d Hid. rewrite H2; [apply Hst; by right |].
      intros ->. apply Hnotin. apply list_elem_of_fmap. by exists (doc_id, d). }
    { intros i d Hid. apply (Hok i d). by right. }
    exists store'. split; [| split].
    + cbn [staged_of]. rewrite Hu. unfold store1 in Hc.
      destruct (truthy u); [| done]. cbn [foldl]. unfold commit_one at 2.
      cbn [mbind option_bind fst snd]. rewrite Hdoc. exact Hc.
    + intros i d u' Hid Hu'. apply elem_of_cons in Hid as [[= -> ->] | Hid].
      * rewrite Hout by done. congruence.
      * by apply Hin.
    + intros i Hi. cbn [fmap list_fmap fst] in Hi. apply not_elem_of_cons in Hi as [? ?].
      rewrite Hout by done. by apply H2.
Qed.

(** The same for a whole run that reaches its end. *)
Lemma store_after_run plan ending docs st store :
  ending_like ending ->
  loop plan docs initial = Finished st ->
  stream_of store docs ->
  (∀ doc_id data, (doc_id, data) ∈ docs -> ∃ u, plan data = Ok u) ->
  ∃ store',
    store_after store (Finished (ending st)) = Some store'
    ∧ dom store' = dom store
    ∧ (∀ doc_id data u, (doc_id, data) ∈ docs -> plan data = Ok u ->
         store' !! doc_id = Some (apply_update u data))
    ∧ (∀ doc_id, doc_id ∉ docs.*1 -> store' !! doc_id = store !! doc_id).
Proof.
  intros He E Hs Hok.
  destruct (commit_staged plan docs store Hs Hok) as (store' & Hc & Hin & Hout).
  exists store'. unfold store_after. cbn [final_state].
  rewrite commit_all_concat.
  destruct (run_committed plan ending docs st He E) as (-> & _).
  repeat split; try done. by apply (commit_one_dom _ _ _ Hc).
Qed.

(** The updates staged for one document of a stream without repeated ids. *)
Lemma staged_of_doc plan (docs : list (string * gmap string Value)) doc_id data u :
  NoDup docs.*1 ->
  (∀ i d, (i, d) ∈ docs -> ∃ u, plan d = Ok u) ->
  (doc_id, data) ∈ docs -> plan data = Ok u ->
  filter (fun s : Staged => fst s = doc_id) (staged_of plan docs)
  = if truthy u then [(doc_id, u)] else [].
Proof.
  assert (∀ l : list (string * gmap string Value), doc_id ∉ l.*1 ->
            filter (fun s : Staged => fst s = doc_id) (staged_of plan l) = []) as Hnone.
  { induction l as [| [i d] l IH]; intros Hni; [reflexivity |].
    cbn [fmap list_fmap fst] in Hni. apply not_elem_of_cons in Hni as [? ?].
    cbn [staged_of]. destruct (plan d) as [u' |]; [| reflexivity].
    destruct (truthy u'); [| by apply IH].
    rewrite filter_cons_False by (cbn; congruence). by apply IH. }
  induction docs as [| [i d] rest IH]; intros Hnd Hok Hin Hu.
  - by apply elem_of_nil in Hin.
  - cbn [fmap list_fmap fst] in Hnd. apply NoDup_cons in Hnd as [Hni Hnd].
    cbn [staged_of]. apply elem_of_cons in Hin as [[= <- <-] | Hin].
    + rewrite Hu. destruct (truthy u); [| by apply Hnone].
      rewrite filter_cons_True by done. by rewrite Hnone.
    + assert (i ≠ doc_id) as Hne.
      { intros ->. apply Hni. apply list_elem_of_fmap. by exists (doc_id, data). }
      destruct (Hok i d) as [u' ->]; [left |].
      assert (filter (fun s : Staged => fst s = doc_id) (staged_of plan rest)
              = if truthy u then [(doc_id, u)] else []) as IH'.
      { apply IH; try done. intros i' d' Hi'. apply (Hok i' d'). by right. }
      destruct (truthy u'); [| done]. by rewrite filter_cons_False.
Qed.

(** ** The field-name migration of listings *)

Lemma delete_fold_hit data fields : ∀ (u0 : gmap string Change) k,
  k ∈ fields -> is_Some (data !! k) ->
  foldl (NameI18n.delete_step data) u0 fields !! k = Some DELETE_FIELD.
Proof.
  induction fields as [| f rest IH] using rev_ind; intros u0 k Hin Hk.
  - by apply elem_of_nil in Hin.
  - rewrite foldl_app. cbn [foldl]. unfold NameI18n.delete_step at 1.
    destruct (decide (k = f)) as [-> | Hne].
    + destruct Hk as [v ->]. by rewrite lookup_insert_eq.
    + apply elem_of_app in Hin as [Hin | Hin]; [| apply list_elem_of_singleton in Hin; done].
      destruct (data !! f); [rewrite lookup_insert_ne by done |]; by apply IH.
Qed.

Lemma delete_fold_miss data fields : ∀ (u0 : gmap string Change) k,
  k ∉ fields ∨ data !! k = None ->
  foldl (NameI18n.delete_step data) u0 fields !! k = u0 !! k.
Proof.
  induction fields as [| f rest IH]; intros u0 k Hk; cbn [foldl]; [done |].
  rewrite IH.
  - unfold NameI18n.delete_step. destruct (data !! f) eqn:E; [| done].
    apply lookup_insert_ne. intros ->. destruct Hk as [Hk | Hk]; [| congruence].
    apply Hk. left.
  - destruct Hk as [Hk | Hk]; [left | by right]. intros Hin. apply Hk. by right.
Qed.

Lemma delete_fold_nonempty data fields : ∀ u0 : gmap string Change,
  u0 ≠ ∅ -> foldl (NameI18n.delete_step data) u0 fields ≠ ∅.
Proof.
  induction fields as [| f rest IH]; intros u0 Hu; cbn [foldl]; [done |].
  apply IH. unfold NameI18n.delete_step. destruct (data !! f); [| done].
  apply insert_non_empty.
Qed.

(** A listing that has neither [sourceLanguage] nor [source_language] is
    given the latter, and so is staged. *)
Lemma name_i18n_adds_source_language data :
  data !! "sourceLanguage" = None ->
  NameI18n.update_data_of data !! "source_language" = Some (SetTo (VStr "en"))
  ∧ truthy (NameI18n.update_data_of data) = true.
Proof.
  intros Hsl. unfold NameI18n.update_data_of, NameI18n.add_source_language. rewrite Hsl.
  split.
  - rewrite delete_fold_miss.
    + rewrite rename_fold_other; [apply lookup_singleton_eq | compute_done | compute_done].
    + left. compute_done.
  - apply truthy_true, delete_fold_nonempty, rename_fold_nonempty. left.
    apply insert_non_empty.
Qed.

(** C3, counterexample: a listing without any field has no field a rule
    could apply to, and [migrate_listings] of
    [migrate_name_fields_i18n.py] still commits an update for it. *)
Lemma empty_listing_is_written :
  dom (∅ : gmap string Value) = ∅
  ∧ length (updates_of "l1" (NameI18n.migrate_listings [("l1", ∅)])) = 1.
Proof. split; [apply dom_empty_L | vm_compute; reflexivity]. Qed.

(** C3, amended: in one run of [migrate_collection] a document that holds
    some old name of the field map is staged in exactly one committed
    update and a document that holds none in no update at all; in
    [migrate_listings] of [migrate_name_fields_i18n.py] a listing without
    [sourceLanguage] and without [source_language] is staged in exactly
    one committed update, whatever else it holds, because
    [source_language] is added to it. *)
Theorem write_discipline :
  (∀ field_map docs doc_id data,
      NoDup docs.*1 -> (doc_id, data) ∈ docs ->
      updates_of doc_id (CaseStyle.migrate_collection field_map docs)
      = if CaseStyle.has_old_name field_map data
        then [(doc_id, CaseStyle.rename_fields field_map data)]
        else [])
  ∧ (∀ docs doc_id data,
      NoDup docs.*1 -> (doc_id, data) ∈ docs ->
      data !! "sourceLanguage" = None -> data !! "source_language" = None ->
      updates_of doc_id (NameI18n.migrate_listings docs)
      = [(doc_id, NameI18n.update_data_of data)]
      ∧ NameI18n.update_data_of data !! "source_language" = Some (SetTo (VStr "en"))).
Proof.
  split.
  - intros field_map docs doc_id data Hnd Hin.
    destruct (case_style_finishes field_map docs) as (st & E & ->).
    unfold updates_of. cbn [final_state].
    destruct (run_committed _ _ docs st
                (case_style_ending_like (CaseStyle.updates_made field_map docs)) E)
      as (-> & _).
    rewrite (staged_of_doc _ docs doc_id data (CaseStyle.rename_fields field_map data));
      try done.
    + by rewrite rename_fields_truthy.
    + intros; unfold CaseStyle.plan; eauto.
  - intros docs doc_id data Hnd Hin Hsl _.
    destruct (name_i18n_finishes docs) as (st & E & ->).
    unfold updates_of. cbn [final_state].
    destruct (run_committed _ _ docs st finish_ending_like E) as (-> & _).
    destruct (name_i18n_adds_source_language data Hsl) as [Hk Ht].
    rewrite (staged_of_doc _ docs doc_id data (NameI18n.update_data_of data)); try done.
    + by rewrite Ht.
    + intros; unfold NameI18n.plan; eauto.
Qed.

Lemma write_discipline_witness :
  updates_of "u2" (CaseStyle.migrate_collection CaseStyle.USERS_FIELD_MAP
                     [("u1", {[ "hasPets" := VBool true ]}); ("u2", {[ "has_pets" := VBool true ]})])
  = []
  ∧ length (updates_of "l2" (NameI18n.migrate_listings
                     [("l1", ∅); ("l2", {[ "title" := VStr "Loft" ]})])) = 1.
Proof.
  destruct write_discipline as [H1 H2]. split.
  - rewrite (H1 _ _ "u2" {[ "has_pets" := VBool true ]}).
    + vm_compute. reflexivity.
    + compute_done.
    + right. left.
  - destruct (H2 [("l1", ∅); ("l2", {[ "title" := VStr "Loft" ]})] "l2"
                {[ "title" := VStr "Loft" ]}) as [-> _].
    + compute_done.
    + right. left.
    + vm_compute. reflexivity.
    + vm_compute. reflexivity.
    + reflexivity.
Defined.

(** ** Renaming, on the store *)

Lemma same_new_name (field_map : list (string * string)) old old' new :
  NoDup field_map.*2 -> (old, new) ∈ field_map -> (old', new) ∈ field_map -> old' = old.
Proof.
  induction field_map as [| [o n] rest IH]; intros Hnd H1 H2.
  - by apply elem_of_nil in H1.
  - cbn [fmap list_fmap snd] in Hnd. apply NoDup_cons in Hnd as [Hni Hnd].
    assert (∀ x, (x, new) ∈ rest -> new ∈ rest.*2) as Hin.
    { intros x Hx. apply list_elem_of_fmap. by exists (x, new). }
    apply elem_of_cons in H1 as [H1 | H1]; apply elem_of_cons in H2 as [H2 | H2].
    + congruence.
    + injection H1 as -> ->. exfalso. eauto.
    + injection H2 as -> ->. exfalso. eauto.
    + by apply IH.
Qed.

(** In a field map whose new names are all different and none of them an
    old name, no entry writes a name of another entry. *)
Lemma separate_names (field_map : list (string * string)) old new old' new' :
  NoDup field_map.*2 -> Forall (fun n => n ∉ field_map.*1) field_map.*2 ->
  (old, new) ∈ field_map -> (old', new') ∈ field_map ->
  (new' = new -> old' = old) ∧ new' ≠ old.
Proof.
  intros Hnd Hsep H1 H2. split.
  - intros ->. by apply (same_new_name field_map old old' new).
  - intros ->. rewrite Forall_forall in Hsep. apply (Hsep old).
    + apply list_elem_of_fmap. by exists (old', old).
    + apply list_elem_of_fmap. by exists (old, new).
Qed.

Lemma case_style_maps_separate field_map :
  field_map = CaseStyle.LISTINGS_FIELD_MAP ∨ field_map = CaseStyle.USERS_FIELD_MAP ->
  NoDup field_map.*2 ∧ Forall (fun n => n ∉ field_map.*1) field_map.*2.
Proof. intros [-> | ->]; split; compute_done. Qed.

Lemma name_i18n_renamed data old new v :
  (old, new) ∈ NameI18n.fields_to_rename ->
  data !! old = Some v -> data !! new = None ->
  (∀ old', (old', new) ∈ NameI18n.fields_to_rename -> old' ≠ old -> data !! old' = None) ->
  NameI18n.update_data_of data !! new = Some (SetTo v)
  ∧ NameI18n.update_data_of data !! old = Some DELETE_FIELD.
Proof.
  intros Hin Hold Hnew Hside. unfold NameI18n.update_data_of.
  destruct (rename_fold_entry data old new v NameI18n.fields_to_rename
              (NameI18n.add_source_language data) Hin Hold Hnew) as [H1 H2].
  { intros old' new' Hin' [v' Hv']. split.
    - intros ->. destruct (decide (old' = old)) as [? | Hne]; [done |].
      rewrite (Hside old' Hin' Hne) in Hv'. discriminate.
    - intros ->. revert Hin Hin'. generalize old' old new. clear.
      intros a b c Hb Ha.
      assert (Forall (fun n => n ∉ NameI18n.fields_to_rename.*1)
                NameI18n.fields_to_rename.*2) as Hsep by compute_done.
      rewrite Forall_forall in Hsep. apply (Hsep b).
      + apply list_elem_of_fmap. by exists (a, b).
      + apply list_elem_of_fmap. by exists (b, c). }
  split.
  - rewrite delete_fold_miss; [done | by right].
  - destruct (decide (old ∈ NameI18n.fields_to_delete)).
    + apply delete_fold_hit; [done | eauto].
    + rewrite delete_fold_miss; [done | by left].
Qed.

(** C5, counterexample: [fields_to_rename] of
    [migrate_name_fields_i18n.py] sends two old names to
    [available_until_unix]; a listing that holds both, and not the new
    name, ends with the value of the one that comes later in the table. *)
Lemma later_old_name_wins :
  let data : gmap string Value :=
    {[ "availableUntil_unix" := VInt 1; "availableUntilUnix" := VInt 2 ]} in
  ("availableUntil_unix", "available_until_unix") ∈ NameI18n.fields_to_rename
  ∧ data !! "availableUntil_unix" = Some (VInt 1)
  ∧ data !! "available_until_unix" = None
  ∧ store_after {[ "l1" := data ]} (NameI18n.migrate_listings [("l1", data)])
    = Some {[ "l1" := {[ "available_until_unix" := VInt 2;
                         "source_language" := VStr "en" ]} ]}.
Proof. cbv zeta. repeat split; try compute_done. Qed.

(** C5, amended: for the two field maps of [migrate_case_style.py], a
    document of the stream that holds [old_name = v] and not [new_name]
    is, after the commits of the run, a document with [new_name = v] and
    without [old_name]; for [fields_to_rename] of
    [migrate_name_fields_i18n.py] the same holds when the document holds no
    other old name of the table with the same new name. *)
Theorem rename_correctness :
  (∀ field_map store docs doc_id data old new v,
      field_map = CaseStyle.LISTINGS_FIELD_MAP ∨ field_map = CaseStyle.USERS_FIELD_MAP ->
      stream_of store docs -> (doc_id, data) ∈ docs ->
      (old, new) ∈ field_map -> data !! old = Some v -> data !! new = None ->
      ∃ store' after,
        store_after store (CaseStyle.migrate_collection field_map docs) = Some store'
        ∧ store' !! doc_id = Some after
        ∧ after !! new = Some v ∧ after !! old = None)
  ∧ (∀ store docs doc_id data old new v,
      stream_of store docs -> (doc_id, data) ∈ docs ->
      (old, new) ∈ NameI18n.fields_to_rename -> data !! old = Some v -> data !! new = None ->
      (∀ old', (old', new) ∈ NameI18n.fields_to_rename -> old' ≠ old ->
               data !! old' = None) ->
      ∃ store' after,
        store_after store (NameI18n.migrate_listings docs) = Some store'
        ∧ store' !! doc_id = Some after
        ∧ after !! new = Some v ∧ after !! old = None).
Proof.
  split.
  - intros field_map store docs doc_id data old new v Hfm Hs Hin Hentry Hold Hnew.
    destruct (case_style_finishes field_map docs) as (st & E & ->).
    destruct (store_after_run _ _ docs st store
                (case_style_ending_like (CaseStyle.updates_made field_map docs)) E Hs)
      as (store' & Hc & _ & Hdoc & _).
    { intros; unfold CaseStyle.plan; eauto. }
    exists store', (apply_update (CaseStyle.rename_fields field_map data) data).
    split; [done |]. split; [by apply Hdoc |].
    destruct (case_style_maps_separate field_map Hfm) as [Hnd Hsep].
    destruct (rename_fold_entry data old new v field_map ∅ Hentry Hold Hnew) as [H1 H2].
    { intros old' new' Hin' _. by apply (separate_names field_map). }
    fold (CaseStyle.rename_fields field_map data) in H1, H2.
    rewrite !lookup_apply_update, H1, H2. done.
  - intros store docs doc_id data old new v Hs Hin Hentry Hold Hnew Hside.
    destruct (name_i18n_finishes docs) as (st & E & ->).
    destruct (store_after_run _ _ docs st store finish_ending_like E Hs)
      as (store' & Hc & _ & Hdoc & _).
    { intros; unfold NameI18n.plan; eauto. }
    exists store', (apply_update (NameI18n.update_data_of data) data).
    split; [done |]. split; [by apply Hdoc |].
    destruct (name_i18n_renamed data old new v Hentry Hold Hnew Hside) as [H1 H2].
    rewrite !lookup_apply_update, H1, H2. done.
Qed.

Lemma rename_correctness_witness :
  (∃ store' after,
     store_after {[ "u1" := {[ "hasPets" := VBool true ]} ]}
       (CaseStyle.migrate_collection CaseStyle.USERS_FIELD_MAP
          [("u1", {[ "hasPets" := VBool true ]})]) = Some store'
     ∧ store' !! "u1" = Some after
     ∧ after !! "has_pets" = Some (VBool true) ∧ after !! "hasPets" = None)
  ∧ (∃ store' after,
     store_after {[ "l1" := {[ "availableUntilUnix" := VInt 2 ]} ]}
       (NameI18n.migrate_listings [("l1", {[ "availableUntilUnix" := VInt 2 ]})])
       = Some store'
     ∧ store' !! "l1" = Some after
     ∧ after !! "available_until_unix" = Some (VInt 2)
     ∧ after !! "availableUntilUnix" = None).
Proof.
  destruct rename_correctness as [H1 H2]. split.
  - apply (H1 CaseStyle.USERS_FIELD_MAP _ _ "u1" {[ "hasPets" := VBool true ]}).
    + by right.
    + split; [compute_done |]. intros i d Hi. apply list_elem_of_singleton in Hi as [= -> ->].
      vm_compute. reflexivity.
    + left.
    + compute_done.
    + vm_compute. reflexivity.
    + vm_compute. reflexivity.
  - apply (H2 _ _ "l1" {[ "availableUntilUnix" := VInt 2 ]}).
    + split; [compute_done |]. intros i d Hi. apply list_elem_of_singleton in Hi as [= -> ->].
      vm_compute. reflexivity.
    + left.
    + compute_done.
    + vm_compute. reflexivity.
    + vm_compute. reflexivity.
    + intros old' Hin Hne.
      assert (old' ∈ (filter (fun e : string * string => snd e = "available_until_unix")
                        NameI18n.fields_to_rename).*1) as Hold'.
      { apply list_elem_of_fmap. exists (old', "available_until_unix").
        split; [done |]. by apply list_elem_of_filter. }
      vm_compute in Hold'.
      apply elem_of_cons in Hold' as [-> | Hold']; [vm_compute; reflexivity |].
      apply list_elem_of_singleton in Hold' as ->. done.
Defined.

(** ** Which fields an update dictionary names *)

Lemma convert_field_keys doc_data (u u' : gmap string Change) rule k :
  ContentI18n.convert_field doc_data u rule = Ok u' ->
  is_Some (u' !! k) -> is_Some (u !! k) ∨ k = fst rule.
Proof.
  destruct rule as [field conversion_map]. unfold ContentI18n.convert_field. cbn [fst].
  assert (∀ c, is_Some (<[field := c]> u !! k) -> is_Some (u !! k) ∨ k = field) as Hins.
  { intros c. destruct (decide (k = field)) as [-> | ?]; [by right |].
    rewrite lookup_insert_ne by done. by left. }
  destruct (doc_data !! field) as [[| | | | s | | items |] |]; try (intros [= <-]; by left).
  - destruct (ContentI18n.dict_get conversion_map s) as [t |]; [| intros [= <-]; by left].
    destruct (ContentI18n.str_truthy t); intros [= <-]; [apply Hins | by left].
  - destruct (ContentI18n.translate_list conversion_map items) as [[new_list changed] |];
      [| done]. cbn. destruct changed; intros [= <-]; [apply Hins | by left].
Qed.

Lemma convert_fields_keys doc_data rules : ∀ (u u' : gmap string Change) k,
  ContentI18n.convert_fields rules doc_data u = Ok u' ->
  is_Some (u' !! k) -> is_Some (u !! k) ∨ k ∈ rules.*1.
Proof.
  induction rules as [| rule rest IH]; intros u u' k; cbn [ContentI18n.convert_fields].
  - intros [= <-]. by left.
  - destruct (ContentI18n.convert_field doc_data u rule) as [u1 |] eqn:E; [| done].
    cbn. intros Hrest Hk. destruct (IH _ _ _ Hrest Hk) as [H | H].
    + destruct (convert_field_keys _ _ _ _ _ E H) as [? | ->]; [by left |].
      right. cbn [fmap list_fmap]. left.
    + right. cbn [fmap list_fmap]. by right.
Qed.

Lemma for_each_keys step (name : string -> string) fields :
  (∀ (u u' : gmap string Change) f k,
      step u f = Ok u' -> is_Some (u' !! k) -> is_Some (u !! k) ∨ k = name f) ->
  ∀ (u u' : gmap string Change) k,
    DataSchema.for_each step fields u = Ok u' ->
    is_Some (u' !! k) -> is_Some (u !! k) ∨ k ∈ name <$> fields.
Proof.
  intros Hstep. induction fields as [| f rest IH]; intros u u' k; cbn [DataSchema.for_each].
  - intros [= <-]. by left.
  - destruct (step u f) as [u1 |] eqn:E; [| done]. cbn.
    intros Hrest Hk. destruct (IH _ _ _ Hrest Hk) as [H | H].
    + destruct (Hstep _ _ _ _ E H) as [? | ->]; [by left |]. right. left.
    + right. by right.
Qed.

Lemma insert_keys (u : gmap string Change) field c k :
  is_Some (<[field := c]> u !! k) -> is_Some (u !! k) ∨ k = field.
Proof.
  destruct (decide (k = field)) as [-> | ?]; [by right |].
  rewrite lookup_insert_ne by done. by left.
Qed.

Lemma unix_step_keys data (u u' : gmap string Change) field k :
  DataSchema.unix_step data u field = Ok u' ->
  is_Some (u' !! k) -> is_Some (u !! k) ∨ k = field +:+ "_unix".
Proof.
  unfold DataSchema.unix_step.
  destruct (data !! field) as [[| | | | | us | |] |]; try (intros [= <-]; by left).
  destruct (PyFloat.to_int (PyFloat.timestamp us)) as [n |]; [| done]. cbn.
  intros [= <-]. apply insert_keys.
Qed.

Lemma date_step_keys data (u u' : gmap string Change) field k :
  DataSchema.date_step data u field = Ok u' ->
  is_Some (u' !! k) -> is_Some (u !! k) ∨ k = field.
Proof.
  unfold DataSchema.date_step.
  destruct (data !! field ≫= DataSchema.seconds_of) as [[x |] |]; [| done |];
    [| intros [= <-]; by left].
  cbn. destruct (PyFloat.fromtimestamp x) as [us |]; [| done]. cbn.
  intros [= <-]. apply insert_keys.
Qed.

Lemma delete_fold_keys data fields : ∀ (u0 : gmap string Change) k,
  is_Some (foldl (NameI18n.delete_step data) u0 fields !! k) ->
  is_Some (u0 !! k) ∨ k ∈ fields.
Proof.
  induction fields as [| f rest IH]; intros u0 k; cbn [foldl]; [by left |].
  intros H. apply IH in H as [H | H]; [| right; by right].
  unfold NameI18n.delete_step in H. destruct (data !! f); [| by left].
  apply insert_keys in H as [? | ->]; [by left | right; left].
Qed.

Lemma name_i18n_keys data k :
  is_Some (NameI18n.update_data_of data !! k) ->
  k = "source_language" ∨ k ∈ NameI18n.fields_to_rename.*1
  ∨ k ∈ NameI18n.fields_to_rename.*2 ∨ k ∈ NameI18n.fields_to_delete.
Proof.
  unfold NameI18n.update_data_of. intros H.
  apply delete_fold_keys in H as [H | H]; [| right; right; by right].
  apply rename_fold_keys in H as [H | [H | H]];
    [| right; by left | right; right; by left].
  left. unfold NameI18n.add_source_language in H.
  destruct (data !! "sourceLanguage").
  - rewrite lookup_empty in H. by destruct H.
  - destruct (decide (k = "source_language")) as [-> | ?]; [done |].
    rewrite lookup_singleton_ne in H by done. by destruct H.
Qed.

Lemma commit_all_dom store bs store' :
  commit_all store bs = Some store' -> dom store' = dom store.
Proof. rewrite commit_all_concat. apply commit_one_dom. Qed.

(** C10: the update dictionary of a document only has keys from the tables
    of the script: old and new names in [migrate_collection], the fields
    of the conversion rules in [migrate_collection_content], the two
    derived [_unix] names and the two date fields in [migrate_listings] of
    [migrate_data_schema.py], [source_language] and the names of the two
    tables in [migrate_listings] of [migrate_name_fields_i18n.py].  A field
    that is not a key keeps its value
    when the update is applied, and committing batches of updates leaves the
    set of documents of the store as it was. *)
Theorem frame_property :
  (∀ field_map data,
      dom (CaseStyle.rename_fields field_map data)
      ⊆ (list_to_set (field_map.*1 ++ field_map.*2) : gset string))
  ∧ (∀ conversion_rules doc_data u,
      ContentI18n.plan conversion_rules doc_data = Ok u ->
      dom u ⊆ (list_to_set conversion_rules.*1 : gset string))
  ∧ (∀ data u,
      DataSchema.plan data = Ok u ->
      dom u ⊆ (list_to_set ["availableFrom_unix"; "availableUntil_unix";
                            "createdAt"; "updatedAt"] : gset string))
  ∧ (∀ data,
      dom (NameI18n.update_data_of data)
      ⊆ (list_to_set ("source_language" :: NameI18n.fields_to_rename.*1
                        ++ NameI18n.fields_to_rename.*2 ++ NameI18n.fields_to_delete)
           : gset string))
  ∧ (∀ (u : gmap string Change) (data : gmap string Value) k,
      k ∉ dom u -> apply_update u data !! k = data !! k)
  ∧ (∀ store batches store',
      commit_all store batches = Some store' -> dom store' = dom store).
Proof.
  split; [| split; [| split; [| split; [| split]]]].
  - intros field_map data k Hk. apply elem_of_dom in Hk.
    apply rename_fold_keys in Hk as [Hk | Hk].
    + rewrite lookup_empty in Hk. by destruct Hk.
    + apply elem_of_list_to_set, elem_of_app. done.
  - intros rules doc_data u Hu k Hk. apply elem_of_dom in Hk.
    destruct (convert_fields_keys _ _ _ _ _ Hu Hk) as [H | H].
    + rewrite lookup_empty in H. by destruct H.
    + by apply elem_of_list_to_set.
  - intros data u Hu k Hk. apply elem_of_dom in Hk. unfold DataSchema.plan in Hu.
    destruct (DataSchema.for_each (DataSchema.unix_step data) _ ∅) as [u1 |] eqn:E1;
      [| done]. cbn [mbind exc_bind] in Hu.
    apply elem_of_list_to_set.
    destruct (for_each_keys _ (fun f => f) _ (date_step_keys data) _ _ _ Hu Hk) as [H | H].
    + destruct (for_each_keys _ (fun f => f +:+ "_unix") _ (unix_step_keys data) _ _ _ E1 H)
        as [H' | H'].
      * rewrite lookup_empty in H'. by destruct H'.
      * cbn in H'. set_solver.
    + cbn in H. set_solver.
  - intros data k Hk. apply elem_of_dom, name_i18n_keys in Hk.
    apply elem_of_list_to_set. rewrite elem_of_cons, !elem_of_app. tauto.
  - intros u data k Hk. rewrite lookup_apply_update.
    apply not_elem_of_dom in Hk. by rewrite Hk.
  - intros store batches store'. apply commit_all_dom.
Qed.

Lemma frame_property_witness :
  dom ({[ "role" := SetTo (VStr "tenant") ]} : gmap string Change)
    ⊆ (list_to_set ["role"] : gset string)
  ∧ dom ({[ "createdAt" := SetTo (VTimestamp 1700000000000000) ]} : gmap string Change)
    ⊆ (list_to_set ["availableFrom_unix"; "availableUntil_unix";
                    "createdAt"; "updatedAt"] : gset string)
  ∧ apply_update {[ "role" := SetTo (VStr "tenant") ]}
      {[ "role" := VStr "inquilino"; "age" := VInt 30 ]} !! "age" = Some (VInt 30)
  ∧ dom ({[ "u1" := {[ "role" := VStr "tenant" ]} ]} : gmap string (gmap string Value))
    = dom ({[ "u1" := {[ "role" := VStr "inquilino" ]} ]}
             : gmap string (gmap string Value)).
Proof.
  destruct frame_property as (_ & H2 & H3 & _ & H4 & H5).
  split; [| split; [| split]].
  - apply (H2 [("role", [("inquilino", "tenant")])] {[ "role" := VStr "inquilino" ]}).
    vm_compute. reflexivity.
  - apply (H3 {[ "createdAt" := VInt 1700000000000 ]}). vm_compute. reflexivity.
  - rewrite H4; [vm_compute; reflexivity | compute_done].
  - apply (H5 _ [[("u1", {[ "role" := SetTo (VStr "tenant") ]})]]).
    vm_compute. reflexivity.
Defined.

(** ** Running a script a second time *)

(** Where the check of a rule is on the old shape: after the renaming of
    [migrate_case_style.py] with one of its two field maps, no old name is
    left, and a second pass builds an empty update dictionary. *)
Lemma rename_fold_old_name data field_map old : ∀ u0 : gmap string Change,
  old ∉ field_map.*2 -> u0 !! old = None ->
  foldl (rename_step data) u0 field_map !! old
  = if bool_decide (old ∈ field_map.*1 ∧ is_Some (data !! old))
    then Some DELETE_FIELD else None.
Proof.
  induction field_map as [| [o n] rest IH] using rev_ind; intros u0 Hn Hu0.
  - cbn [foldl]. rewrite bool_decide_eq_false_2; [done |].
    intros [H _]. by apply elem_of_nil in H.
  - rewrite foldl_app. cbn [foldl]. rewrite fmap_app in Hn |- *.
    cbn [fmap list_fmap fst snd] in *.
    apply not_elem_of_app in Hn as [Hn1 Hn2]. apply not_elem_of_cons in Hn2 as [Hn2 _].
    specialize (IH u0 Hn1 Hu0). unfold rename_step at 1.
    destruct (data !! o) as [v |] eqn:E.
    + destruct (decide (old = o)) as [-> | Hne].
      * rewrite lookup_insert_eq. rewrite bool_decide_eq_true_2; [done |].
        split; [apply elem_of_app; right; left | eauto].
      * rewrite !lookup_insert_ne by done. rewrite IH.
        apply (f_equal (fun b : bool => if b then Some DELETE_FIELD else None)).
        apply bool_decide_ext. rewrite elem_of_app, list_elem_of_singleton. naive_solver.
    + rewrite IH.
      apply (f_equal (fun b : bool => if b then Some DELETE_FIELD else None)).
      apply bool_decide_ext. rewrite elem_of_app, list_elem_of_singleton.
      split; [naive_solver |]. intros [[? | ->] [? ?]]; [naive_solver | congruence].
Qed.

Lemma case_style_second_pass field_map data :
  field_map = CaseStyle.LISTINGS_FIELD_MAP ∨ field_map = CaseStyle.USERS_FIELD_MAP ->
  CaseStyle.rename_fields field_map
    (apply_update (CaseStyle.rename_fields field_map data) data) = ∅.
Proof.
  intros Hfm. destruct (case_style_maps_separate field_map Hfm) as [_ Hsep].
  apply truthy_false. rewrite rename_fields_truthy. unfold CaseStyle.has_old_name.
  apply not_true_is_false. intros H. apply existsb_exists in H as ([old new] & Hin & H).
  apply bool_decide_eq_true in H. cbn [fst] in H.
  assert (old ∈ field_map.*1) as Hold.
  { apply list_elem_of_fmap. exists (old, new). split; [done | by apply list_elem_of_In]. }
  assert (old ∉ field_map.*2) as Hnew.
  { intros Hin2. rewrite Forall_forall in Hsep. by apply (Hsep old). }
  rewrite lookup_apply_update in H. unfold CaseStyle.rename_fields in H.
  rewrite (rename_fold_old_name data field_map old ∅ Hnew (lookup_empty _)) in H.
  destruct (data !! old) as [v |] eqn:E.
  - rewrite bool_decide_eq_true_2 in H by eauto. by destruct H.
  - rewrite bool_decide_eq_false_2 in H by (intros [_ [? ?]]; congruence).
    by destruct H.
Qed.

(** ** The import guard and [main] *)

(** C9: when [config] cannot be imported, or the credentials file it names
    does not exist, the process prints one error report, reads no
    collection and commits no batch, and exits with status 1. *)
Theorem config_error_fails_fast (w : Script.World) :
  Script.config_found w = false ∨ Script.credentials_exist w = false ->
  Forall (fun e => Script.is_store_access e = false) (Script.process w)
  ∧ length (filter (fun e => Script.is_error_report e = true) (Script.process w)) = 1
  ∧ ∃ code, last (Script.process w) = Some (Script.EvExit code) ∧ code ≠ 0%Z.
Proof.
  intros Hw. unfold Script.process, Script.script, Script.main, Script.except_Exception,
    Script.main_try.
  destruct (Script.config_found w) eqn:Hc; cbn [negb].
  - destruct Hw as [Hw | Hw]; [discriminate |]. rewrite Hw. cbn.
    split; [repeat constructor |]. split; [done |]. by exists 1%Z.
  - cbn. split; [repeat constructor |]. split; [done |]. by exists 1%Z.
Qed.

Lemma config_error_fails_fast_witness :
  let w := Script.mkWorld true false false [("l1", {[ "hasAC" := VBool true ]})] [] in
  Forall (fun e => Script.is_store_access e = false) (Script.process w)
  ∧ length (filter (fun e => Script.is_error_report e = true) (Script.process w)) = 1
  ∧ ∃ code, last (Script.process w) = Some (Script.EvExit code) ∧ code ≠ 0%Z.
Proof.
  cbv zeta.
  apply (config_error_fails_fast
           (Script.mkWorld true false false [("l1", {[ "hasAC" := VBool true ]})] [])).
  right. reflexivity.
Defined.

(** With the configuration in place, the same process does reach the store. *)
Lemma configured_process_reads_store :
  let w := Script.mkWorld true true false [("l1", {[ "hasAC" := VBool true ]})] [] in
  Script.EvStream "listings" ∈ Script.process w
  ∧ Script.EvCommit "listings"
      [("l1", {[ "has_ac" := SetTo (VBool true); "hasAC" := DELETE_FIELD ]})]
    ∈ Script.process w
  ∧ last (Script.process w) = Some (Script.EvExit 0).
Proof.
  cbv zeta. split; [| split].
  - apply list_elem_of_In. vm_compute. left. reflexivity.
  - apply list_elem_of_In. vm_compute. right. left. reflexivity.
  - vm_compute. reflexivity.
Qed.

(** ** Translating content *)

Lemma convert_field_other doc_data (u u' : gmap string Change) field vm k :
  ContentI18n.convert_field doc_data u (field, vm) = Ok u' -> k ≠ field ->
  u' !! k = u !! k.
Proof.
  unfold ContentI18n.convert_field. intros H Hne.
  destruct (doc_data !! field) as [[| | | | s | | items |] |]; try (by injection H as <-).
  - destruct (ContentI18n.dict_get vm s) as [t |]; [| by injection H as <-].
    destruct (ContentI18n.str_truthy t); injection H as <-; [by rewrite lookup_insert_ne | done].
  - destruct (ContentI18n.translate_list vm items) as [[new_list changed] |]; [| done].
    cbn in H. destruct changed; injection H as <-; [by rewrite lookup_insert_ne | done].
Qed.

Lemma convert_fields_other doc_data rules : ∀ (u u' : gmap string Change) k,
  ContentI18n.convert_fields rules doc_data u = Ok u' -> k ∉ rules.*1 ->
  u' !! k = u !! k.
Proof.
  induction rules as [| [f m] rest IH]; intros u u' k; cbn [ContentI18n.convert_fields].
  - by intros [= <-].
  - destruct (ContentI18n.convert_field doc_data u (f, m)) as [u1 |] eqn:E; [| done].
    cbn [mbind exc_bind fmap list_fmap fst]. intros Hrest Hk.
    apply not_elem_of_cons in Hk as [Hne Hk].
    rewrite (IH _ _ _ Hrest Hk). by apply (convert_field_other _ _ _ _ _ _ E).
Qed.

(** With one rule per field, what the update dictionary holds under a field
    is what the turn of the loop for that field put there. *)
Lemma convert_fields_at doc_data rules field vm : ∀ u0 u : gmap string Change,
  NoDup rules.*1 -> (field, vm) ∈ rules ->
  ContentI18n.convert_fields rules doc_data u0 = Ok u ->
  ∃ ua ub, ua !! field = u0 !! field
           ∧ ContentI18n.convert_field doc_data ua (field, vm) = Ok ub
           ∧ u !! field = ub !! field.
Proof.
  induction rules as [| [f m] rest IH]; intros u0 u Hnd Hin; cbn [ContentI18n.convert_fields].
  - by apply elem_of_nil in Hin.
  - cbn [fmap list_fmap fst] in Hnd. apply NoDup_cons in Hnd as [Hni Hnd].
    destruct (ContentI18n.convert_field doc_data u0 (f, m)) as [u1 |] eqn:E; [| done].
    cbn [mbind exc_bind]. intros Hrest.
    apply elem_of_cons in Hin as [[= <- <-] | Hin].
    + exists u0, u1. split; [done |]. split; [done |].
      by apply (convert_fields_other _ _ _ _ _ Hrest).
    + destruct (IH u1 u Hnd Hin Hrest) as (ua & ub & Ha & Hb & Hc).
      exists ua, ub. split; [| done]. rewrite Ha.
      apply (convert_field_other _ _ _ _ _ _ E).
      intros ->. apply Hni. apply list_elem_of_fmap. by exists (f, vm).
Qed.

Lemma str_truthy_spec t : ContentI18n.str_truthy t = true <-> t ≠ "".
Proof.
  unfold ContentI18n.str_truthy. rewrite negb_true_iff.
  destruct (String.eqb_spec t ""); split; congruence.
Qed.

Lemma dict_get_elem {A} (d : list (string * A)) k v :
  ContentI18n.dict_get d k = Some v -> (k, v) ∈ d.
Proof.
  induction d as [| [k' v'] rest IH]; cbn; [done |].
  destruct (String.eqb_spec k' k) as [-> | ?]; [intros [= ->]; left | right; auto].
Qed.

(** The list loop: it translates every item of a list of hashable items. *)
Lemma translate_list_ok vm items new_list changed :
  ContentI18n.translate_list vm items = Ok (new_list, changed) ->
  new_list = pass_through vm <$> items
  ∧ (changed = true
     <-> Exists (fun item => ContentI18n.py_ne (pass_through vm item) item = true) items).
Proof.
  revert new_list changed.
  induction items as [| item rest IH]; intros new_list changed; cbn [ContentI18n.translate_list].
  - intros [= <- <-]. split; [done |]. split; [done | by intros ?%Exists_nil].
  - destruct (ContentI18n.translate_item vm item) as [t |] eqn:Et; [| done].
    cbn [mbind exc_bind].
    destruct (ContentI18n.translate_list vm rest) as [[l c] |]; [| done].
    cbn [mbind exc_bind]. intros [= <- <-].
    destruct (IH l c eq_refl) as [-> Hc].
    assert (t = pass_through vm item) as ->.
    { unfold ContentI18n.translate_item in Et. unfold pass_through.
      destruct item; try (by injection Et as <-); try done.
      destruct (ContentI18n.dict_get vm s); by injection Et as <-. }
    split; [done |]. rewrite orb_true_iff, Hc, Exists_cons. done.
Qed.

Lemma translate_list_total vm items :
  Forall (fun item => hashable item = true) items ->
  ∃ new_list changed, ContentI18n.translate_list vm items = Ok (new_list, changed).
Proof.
  induction 1 as [| item rest Hh _ (l & c & IH)]; cbn [ContentI18n.translate_list];
    [by eexists _, _ |].
  assert (∃ t, ContentI18n.translate_item vm item = Ok t) as [t ->].
  { unfold ContentI18n.translate_item.
    destruct item; try done; try (by eexists).
    destruct (ContentI18n.dict_get vm s); by eexists. }
  cbn [mbind exc_bind]. rewrite IH. cbn [mbind exc_bind]. by eexists _, _.
Qed.

Lemma SFeqb_refl f : f ≠ S754_nan -> SFeqb f f = true.
Proof.
  unfold SFeqb, SFcompare. destruct f as [s | s | | s m e]; try done.
  - by destruct s.
  - intros _. rewrite Z.compare_refl, Pos.compare_cont_refl. by destruct s.
Qed.

(** On an ordinary item, Python's [!=] between the translated item and the
    item is true exactly when the two differ. *)
Lemma py_ne_pass_through vm item :
  ordinary_item item = true ->
  ContentI18n.py_ne (pass_through vm item) item = true <-> pass_through vm item ≠ item.
Proof.
  intros Ho. destruct item as [| b | n | f | s | us | |]; cbn in Ho |- *; try done.
  - destruct b; cbn; split; congruence.
  - rewrite Z.eqb_refl. cbn. split; congruence.
  - rewrite SFeqb_refl by (by destruct f). cbn. split; congruence.
  - destruct (ContentI18n.dict_get vm s) as [t |]; cbn.
    + rewrite negb_true_iff. destruct (String.eqb_spec t s); split; congruence.
    + rewrite String.eqb_refl. cbn. split; congruence.
  - rewrite Z.eqb_refl. cbn. split; congruence.
Qed.

Lemma unchanged_iff_same vm items :
  Forall (fun item => ordinary_item item = true) items ->
  Forall (fun item => ContentI18n.py_ne (pass_through vm item) item = false) items
  <-> pass_through vm <$> items = items.
Proof.
  induction 1 as [| item rest Ho _ IH]; cbn [fmap list_fmap].
  - split; [done | constructor].
  - rewrite Forall_cons, IH. pose proof (py_ne_pass_through vm item Ho) as Hi.
    destruct (ContentI18n.py_ne (pass_through vm item) item).
    + split; [by intros [? _] |]. intros [= H1 _]. exfalso. by apply Hi.
    + split.
      * intros [_ ->]. f_equal. destruct Hi as [_ Hi].
        destruct item as [| | | | s | | |]; try done.
        cbn in *. destruct (ContentI18n.dict_get vm s) as [t |]; [| done].
        cbn in *. destruct (String.eqb_spec t s); [by subst |].
        exfalso. apply diff_false_true, Hi. congruence.
      * intros [= H1 H2]. done.
Qed.

Lemma Exists_true_not_Forall_false {A} (b : A -> bool) (l : list A) :
  Exists (fun x => b x = true) l <-> ¬ Forall (fun x => b x = false) l.
Proof.
  induction l as [| x l IH].
  - split; [by intros ?%Exists_nil | intros H; destruct H; constructor].
  - rewrite Exists_cons, Forall_cons, IH. destruct (b x); split.
    + intros _ [? _]. done.
    + intros _. by left.
    + intros [? | H] [_ ?]; done.
    + intros H. right. intros ?. by apply H.
Qed.

Lemma changed_iff_differs vm items :
  Forall (fun item => ordinary_item item = true) items ->
  Exists (fun item => ContentI18n.py_ne (pass_through vm item) item = true) items
  <-> pass_through vm <$> items ≠ items.
Proof.
  intros Ho. rewrite <- (unchanged_iff_same vm items Ho).
  apply (Exists_true_not_Forall_false
           (fun item => ContentI18n.py_ne (pass_through vm item) item)).
Qed.

Lemma convert_fields_total doc_data rules :
  (∀ field items, field ∈ rules.*1 -> doc_data !! field = Some (VList items) ->
                  Forall (fun item => hashable item = true) items) ->
  ∀ u0, ∃ u, ContentI18n.convert_fields rules doc_data u0 = Ok u.
Proof.
  induction rules as [| [f vm] rest IH]; intros Hh u0; cbn [ContentI18n.convert_fields].
  - by eexists.
  - assert (∃ u1, ContentI18n.convert_field doc_data u0 (f, vm) = Ok u1) as [u1 ->].
    { unfold ContentI18n.convert_field.
      destruct (doc_data !! f) as [[| | | | s | | items |] |] eqn:E; try (by eexists).
      - destruct (ContentI18n.dict_get vm s) as [t |]; [| by eexists].
        destruct (ContentI18n.str_truthy t); by eexists.
      - destruct (translate_list_total vm items) as (l & c & ->).
        { apply (Hh f); [left | done]. }
        cbn. by eexists. }
    cbn [mbind exc_bind]. apply IH. intros field items Hin. apply Hh. by right.
Qed.

(** C6, at a value map that translates ["inquilino"] to the empty
    string: the string of the field is a key of the map, and
    [migrate_collection_content] stages no replacement for it, the
    document keeps ["inquilino"]: the test [if translated_value:] is on the
    truth value of the translation, which is false for [""].  The branch
    for lists of the same function does translate with this map: a
    document whose field holds the list [["inquilino"]] is staged with
    [[""]]. *)
Theorem empty_translation_not_staged :
  let value_map := [("inquilino", "")] in
  let conversion_rules := [("role", value_map)] in
  let doc_data : gmap string Value := {[ "role" := VStr "inquilino" ]} in
  let doc_list : gmap string Value := {[ "role" := VList [VStr "inquilino"] ]} in
  ContentI18n.dict_get value_map "inquilino" = Some ""
  ∧ ContentI18n.plan conversion_rules doc_data = Ok ∅
  ∧ updates_of "u1"
      (ContentI18n.migrate_collection_content conversion_rules [("u1", doc_data)]) = []
  ∧ store_after {[ "u1" := doc_data ]}
      (ContentI18n.migrate_collection_content conversion_rules [("u1", doc_data)])
    = Some {[ "u1" := doc_data ]}
  ∧ ContentI18n.plan conversion_rules doc_list
    = Ok {[ "role" := SetTo (VList [VStr ""]) ]}.
Proof. cbv zeta. repeat split; vm_compute; reflexivity. Qed.

(** Away from empty translations the scalar branch does what its comment
    says.  For a field that holds a string, under rules with one
    value map per field, a replacement is staged exactly when the string is
    a key of the value map whose translation is not the empty string; the
    document then ends with the translation, and a document whose string is
    not a key keeps it.  No translation in [CONTENT_CONVERSION_MAP] is
    empty, so for its rules the condition is to be a key.  The update
    dictionary is produced whenever no list under a rule holds a list or a
    map. *)
Theorem translate_scalar :
  (∀ conversion_rules field value_map doc_data s u,
      NoDup conversion_rules.*1 -> (field, value_map) ∈ conversion_rules ->
      doc_data !! field = Some (VStr s) ->
      ContentI18n.plan conversion_rules doc_data = Ok u ->
      (is_Some (u !! field)
       <-> ∃ t, ContentI18n.dict_get value_map s = Some t ∧ t ≠ "")
      ∧ (∀ t, ContentI18n.dict_get value_map s = Some t -> t ≠ "" ->
           u !! field = Some (SetTo (VStr t))
           ∧ apply_update u doc_data !! field = Some (VStr t))
      ∧ (ContentI18n.dict_get value_map s = None ->
           u !! field = None ∧ apply_update u doc_data !! field = Some (VStr s)))
  ∧ (∀ collection conversion_rules,
      (collection, conversion_rules) ∈ ContentI18n.CONTENT_CONVERSION_MAP ->
      NoDup conversion_rules.*1
      ∧ ∀ field value_map s t,
          (field, value_map) ∈ conversion_rules ->
          ContentI18n.dict_get value_map s = Some t -> t ≠ "")
  ∧ (∀ conversion_rules doc_data,
      (∀ field items, field ∈ conversion_rules.*1 ->
         doc_data !! field = Some (VList items) ->
         Forall (fun item => hashable item = true) items) ->
      ∃ u, ContentI18n.plan conversion_rules doc_data = Ok u).
Proof.
  split; [| split].
  - intros rules field vm doc_data s u Hnd Hin Hs Hu.
    destruct (convert_fields_at doc_data rules field vm ∅ u Hnd Hin Hu)
      as (ua & ub & Ha & Hb & Hc).
    rewrite lookup_empty in Ha. rewrite lookup_apply_update, Hc.
    unfold ContentI18n.convert_field in Hb. rewrite Hs in Hb.
    destruct (ContentI18n.dict_get vm s) as [t |].
    + destruct (ContentI18n.str_truthy t) eqn:Et; injection Hb as <-.
      * apply str_truthy_spec in Et. rewrite lookup_insert_eq.
        split; [split; eauto |]. split; [| done]. by intros ? [= <-] _.
      * rewrite Ha. split; [split; [by intros [? ?] |] |].
        -- intros (t' & [= <-] & Hne). apply str_truthy_spec in Hne. congruence.
        -- split; [| done]. intros ? [= <-] Hne. apply str_truthy_spec in Hne. congruence.
    + injection Hb as <-. rewrite Ha. split; [split; [by intros [? ?] |] |].
      * by intros (? & ? & _).
      * split; [done |]. by rewrite Hs.
  - intros collection rules Hin.
    assert (Forall (fun cr : string * list (string * list (string * string)) =>
              NoDup (snd cr).*1
              ∧ Forall (fun rule : string * list (string * string) =>
                          Forall (fun t => t ≠ "") (snd rule).*2) (snd cr))
              ContentI18n.CONTENT_CONVERSION_MAP) as Hall by compute_done.
    rewrite Forall_forall in Hall. destruct (Hall _ Hin) as [Hnd Hne]. cbn [snd] in *.
    split; [done |]. intros field vm s t Hrule Hget.
    rewrite Forall_forall in Hne. specialize (Hne _ Hrule). cbn [snd] in Hne.
    rewrite Forall_forall in Hne. apply Hne.
    apply list_elem_of_fmap. exists (s, t). split; [done | by apply dict_get_elem].
  - intros rules doc_data Hh. by apply convert_fields_total.
Qed.

Lemma translate_scalar_witness :
  (is_Some (({[ "role" := SetTo (VStr "tenant") ]} : gmap string Change) !! "role")
   <-> ∃ t, ContentI18n.dict_get [("inquilino", "tenant"); ("casero", "landlord")]
              "inquilino" = Some t ∧ t ≠ "")
  ∧ apply_update ({[ "role" := SetTo (VStr "tenant") ]} : gmap string Change)
      {[ "role" := VStr "inquilino" ]} !! "role" = Some (VStr "tenant")
  ∧ apply_update (∅ : gmap string Change)
      {[ "role" := VStr "unmapped_value" ]} !! "role" = Some (VStr "unmapped_value").
Proof.
  destruct translate_scalar as (H1 & _ & _).
  pose (value_map := [("inquilino", "tenant"); ("casero", "landlord")]).
  assert (NoDup ContentI18n.users_rules.*1) as Hnd by compute_done.
  assert (("role", value_map) ∈ ContentI18n.users_rules) as Hin
    by (apply list_elem_of_In; vm_compute; tauto).
  destruct (H1 ContentI18n.users_rules "role" value_map {[ "role" := VStr "inquilino" ]}
              "inquilino" {[ "role" := SetTo (VStr "tenant") ]} Hnd Hin)
    as (Hiff & Hset & _); [vm_compute; reflexivity | vm_compute; reflexivity |].
  destruct (H1 ContentI18n.users_rules "role" value_map
              {[ "role" := VStr "unmapped_value" ]} "unmapped_value" ∅ Hnd Hin)
    as (_ & _ & Hkeep); [vm_compute; reflexivity | vm_compute; reflexivity |].
  split; [exact Hiff |]. split.
  - apply (Hset "tenant"); [vm_compute; reflexivity | done].
  - apply Hkeep. vm_compute. reflexivity.
Defined.

(** C7, counterexample: a user whose [flatmate_traits] holds a map.  The
    lookup [conversion_map.get(item, item)] raises [TypeError] on it, no
    update dictionary is built and the run ends there: the item is not
    passed through.  And a list that holds a NaN is staged again although
    no item differs from what it was. *)
Lemma unhashable_item_raises :
  ContentI18n.plan ContentI18n.users_rules
    {[ "flatmate_traits" := VList [VStr "Independencia"; VMap [("level", VInt 3)]] ]}
  = Raise TypeError
  ∧ ContentI18n.migrate_collection_content ContentI18n.users_rules
      [("u1", {[ "flatmate_traits" := VList [VMap [("level", VInt 3)]] ]});
       ("u2", {[ "flatmate_traits" := VList [VStr "Independencia"] ]})]
    = Crashed TypeError initial
  ∧ ContentI18n.plan ContentI18n.users_rules
      {[ "flatmate_traits" := VList [VFloat S754_nan] ]}
    = Ok {[ "flatmate_traits" := SetTo (VList [VFloat S754_nan]) ]}.
Proof. repeat split; vm_compute; reflexivity. Qed.

(** C7, amended: for a field that holds a list of ordinary items (no list,
    no map, no NaN), under rules with one value map per field, the list
    loop maps every item through the value map, an item that is not a key
    staying as it is and where it is, and the whole new list is staged
    exactly when it differs from the old one. *)
Theorem translate_sequence
    (conversion_rules : list (string * list (string * string)))
    (field : string) (value_map : list (string * string))
    (doc_data : gmap string Value) (items : list Value) (u : gmap string Change) :
  NoDup conversion_rules.*1 -> (field, value_map) ∈ conversion_rules ->
  doc_data !! field = Some (VList items) ->
  Forall (fun item => ordinary_item item = true) items ->
  ContentI18n.plan conversion_rules doc_data = Ok u ->
  ContentI18n.translate_list value_map items
    = Ok (pass_through value_map <$> items,
          bool_decide (is_Some (u !! field)))
  ∧ (is_Some (u !! field) <-> pass_through value_map <$> items ≠ items)
  ∧ (is_Some (u !! field) ->
     u !! field = Some (SetTo (VList (pass_through value_map <$> items)))
     ∧ apply_update u doc_data !! field
       = Some (VList (pass_through value_map <$> items)))
  ∧ (u !! field = None -> apply_update u doc_data !! field = Some (VList items)).
Proof.
  intros Hnd Hin Hl Ho Hu.
  destruct (convert_fields_at doc_data conversion_rules field value_map ∅ u Hnd Hin Hu)
    as (ua & ub & Ha & Hb & Hc).
  rewrite lookup_empty in Ha. rewrite lookup_apply_update, Hc.
  unfold ContentI18n.convert_field in Hb. rewrite Hl in Hb.
  destruct (ContentI18n.translate_list value_map items) as [[new_list changed] |] eqn:Et;
    [| done].
  destruct (translate_list_ok _ _ _ _ Et) as [-> Hch].
  rewrite (changed_iff_differs value_map items Ho) in Hch.
  cbn [mbind exc_bind] in Hb. destruct changed; injection Hb as <-.
  - rewrite lookup_insert_eq. rewrite bool_decide_eq_true_2 by eauto.
    split; [done |]. split; [split; [intros _; by apply Hch | eauto] |].
    split; [done | done].
  - rewrite Ha. rewrite bool_decide_eq_false_2 by (by intros [? ?]).
    split; [done |]. split; [split; [by intros [? ?] |] |].
    + intros H. apply Hch in H. discriminate.
    + split; [by intros [? ?] |]. by rewrite Hl.
Qed.

Lemma translate_sequence_witness :
  let value_map := [("Independencia", "independence"); ("Respeto", "respect");
                    ("Confianza", "trustworthiness"); ("Limpieza", "cleanliness");
                    ("Sociabilidad", "sociability")] in
  let items := [VStr "Independencia"; VStr "Unknown"] in
  let u : gmap string Change :=
    {[ "flatmate_traits" := SetTo (VList [VStr "independence"; VStr "Unknown"]) ]} in
  ContentI18n.plan ContentI18n.users_rules {[ "flatmate_traits" := VList items ]} = Ok u
  ∧ (is_Some (u !! "flatmate_traits") <-> pass_through value_map <$> items ≠ items)
  ∧ apply_update u {[ "flatmate_traits" := VList items ]} !! "flatmate_traits"
    = Some (VList [VStr "independence"; VStr "Unknown"]).
Proof.
  cbv zeta.
  pose proof (translate_sequence ContentI18n.users_rules "flatmate_traits"
    [("Independencia", "independence"); ("Respeto", "respect");
     ("Confianza", "trustworthiness"); ("Limpieza", "cleanliness");
     ("Sociabilidad", "sociability")]
    {[ "flatmate_traits" := VList [VStr "Independencia"; VStr "Unknown"] ]}
    [VStr "Independencia"; VStr "Unknown"]
    {[ "flatmate_traits" := SetTo (VList [VStr "independence"; VStr "Unknown"]) ]})
    as H.
  destruct H as (_ & H2 & H3 & _).
  - compute_done.
  - left.
  - vm_compute. reflexivity.
  - repeat constructor.
  - vm_compute. reflexivity.
  - split; [vm_compute; reflexivity |]. split; [exact H2 |].
    destruct H3 as [_ H3]; [vm_compute; eauto |]. exact H3.
Defined.

(** ** Seconds of a timestamp *)

Section Seconds.

Local Open Scope Z_scope.

Lemma digits2_pos_bounds (p : positive) :
  2 ^ (Z.pos (digits2_pos p) - 1) <= Z.pos p < 2 ^ Z.pos (digits2_pos p).
Proof.
  induction p as [p IH | p IH |]; cbn [digits2_pos].
  - rewrite Pos2Z.inj_succ, Z.pow_succ_r by lia.
    replace (Z.succ (Z.pos (digits2_pos p)) - 1) with (Z.succ (Z.pos (digits2_pos p) - 1))
      by lia.
    rewrite Z.pow_succ_r by lia. lia.
  - rewrite Pos2Z.inj_succ, Z.pow_succ_r by lia.
    replace (Z.succ (Z.pos (digits2_pos p)) - 1) with (Z.succ (Z.pos (digits2_pos p) - 1))
      by lia.
    rewrite Z.pow_succ_r by lia. lia.
  - cbn. lia.
Qed.

Lemma digits2_pos_unique (p : positive) (d : Z) :
  2 ^ (d - 1) <= Z.pos p < 2 ^ d -> Z.pos (digits2_pos p) = d.
Proof.
  intros [Hlo Hhi]. pose proof (digits2_pos_bounds p) as [Blo Bhi].
  assert (0 < d) as Hd.
  { destruct (Z.ltb_spec 0 d); [done |]. exfalso.
    assert (2 ^ d <= 1); [| lia].
    destruct (Z.eq_dec d 0) as [-> | ?]; [cbn; lia |].
    rewrite Z.pow_neg_r by lia. lia. }
  destruct (Z.lt_trichotomy (Z.pos (digits2_pos p)) d) as [H | [H | H]]; [| done |].
  - exfalso. assert (2 ^ Z.pos (digits2_pos p) <= 2 ^ (d - 1)); [| lia].
    apply Z.pow_le_mono_r; lia.
  - exfalso. assert (2 ^ d <= 2 ^ (Z.pos (digits2_pos p) - 1)); [| lia].
    apply Z.pow_le_mono_r; lia.
Qed.

Lemma round_nearest_even_near m l :
  m <= round_nearest_even m l <= m + 1.
Proof.
  unfold round_nearest_even. destruct l as [| []]; try lia. destruct (Z.even m); lia.
Qed.

Lemma loc_of_shr_record_of_loc m l : loc_of_shr_record (shr_record_of_loc m l) = l.
Proof. by destruct l as [| []]. Qed.

Lemma shr_m_of_loc m l : shr_m (shr_record_of_loc m l) = m.
Proof. by destruct l as [| []]. Qed.

Lemma fexp_normal e : -1021 <= e -> fexp 53 1024 e = e - 53.
Proof. intros H. unfold fexp, emin. lia. Qed.

(** The second half of [binary_round_aux]: a mantissa of 53 bits, or [2^53],
    at a negative exponent; [int()] of the float is the mantissa shifted. *)
Lemma finish_round (s : bool) (m1 e1 : Z) :
  2 ^ 52 <= m1 <= 2 ^ 53 -> -72 <= e1 <= -2 ->
  ∃ m e2,
    (let '(mrs, e2) := shr_fexp 53 1024 m1 e1 loc_Exact in
     match shr_m mrs with
     | Z0 => S754_zero s
     | Zpos m => if e2 <=? 1024 - 53 then S754_finite s m e2 else S754_infinity s
     | Zneg _ => S754_nan
     end) = S754_finite s m e2
    ∧ PyFloat.to_int (S754_finite s m e2) = Ok (cond_Zopp s (m1 / 2 ^ (- e1))).
Proof.
  intros Hm He. destruct m1 as [| p |]; [lia | | lia].
  unfold shr_fexp. cbn [Zdigits2].
  destruct (Z.eq_dec (Z.pos p) (2 ^ 53)) as [Heq | Hne].
  - rewrite (digits2_pos_unique p 54)
      by (rewrite Heq; change (54 - 1) with 53; split; [lia | by apply Z.pow_lt_mono_r]).
    rewrite fexp_normal by lia.
    replace (54 + e1 - 53 - e1) with 1 by lia.
    assert (p = 9007199254740992%positive) as -> by (change (2 ^ 53) with 9007199254740992 in Heq; lia).
    cbn [shr shr_record_of_loc SpecFloat.iter_pos shr_1 shr_m fst snd].
    rewrite (proj2 (Z.leb_le _ _)) by lia.
    eexists _, _. split; [reflexivity |].
    cbn [PyFloat.to_int]. rewrite (proj2 (Z.leb_gt _ _)) by lia.
    do 2 f_equal.
    replace (- e1) with (Z.succ (- (e1 + 1))) by lia.
    rewrite Z.pow_succ_r by lia.
    change 9007199254740992 with (2 * 4503599627370496).
    rewrite Z.div_mul_cancel_l by lia. reflexivity.
  - rewrite (digits2_pos_unique p 53) by (change (53 - 1) with 52; lia).
    rewrite fexp_normal by lia.
    replace (53 + e1 - 53 - e1) with 0 by lia.
    cbn [shr shr_record_of_loc shr_m fst snd].
    rewrite (proj2 (Z.leb_le _ _)) by lia.
    eexists _, _. split; [reflexivity |].
    cbn [PyFloat.to_int]. rewrite (proj2 (Z.leb_gt _ _)) by lia. reflexivity.
Qed.

(** [binary_round_aux] on a quotient of 53 or 54 bits: [int()] of the
    rounded float is a mantissa next to the quotient, or to its half,
    shifted by the exponent. *)
Lemma round_aux_to_int (s : bool) (q : positive) (e : Z) (l : location) :
  2 ^ 52 <= Z.pos q < 2 ^ 54 -> -72 <= e <= -21 ->
  ∃ m1 k,
    PyFloat.to_int (binary_round_aux 53 1024 s (Z.pos q) e l)
      = Ok (cond_Zopp s (m1 / 2 ^ k))
    ∧ (k = - e ∧ Z.pos q <= m1 <= Z.pos q + 1
       ∨ k = - e - 1 ∧ Z.pos q / 2 <= m1 <= Z.pos q / 2 + 1).
Proof.
  intros Hq He. unfold binary_round_aux.
  destruct (Z.lt_ge_cases (Z.pos q) (2 ^ 53)) as [Hlt | Hge].
  - (* 53 bits: no shift before rounding *)
    unfold shr_fexp at 1. cbn [Zdigits2].
    rewrite (digits2_pos_unique q 53) by (change (53 - 1) with 52; lia).
    rewrite fexp_normal by lia. replace (53 + e - 53 - e) with 0 by lia.
    cbn [shr]. rewrite loc_of_shr_record_of_loc, shr_m_of_loc.
    pose proof (round_nearest_even_near (Z.pos q) l) as Hr.
    destruct (finish_round s (round_nearest_even (Z.pos q) l) e) as (m & e2 & -> & ->);
      [lia | lia |].
    eexists _, _. split; [reflexivity |]. left. lia.
  - (* 54 bits: one shift before rounding *)
    unfold shr_fexp at 1. cbn [Zdigits2].
    rewrite (digits2_pos_unique q 54) by (change (54 - 1) with 53; lia).
    rewrite fexp_normal by lia. replace (54 + e - 53 - e) with 1 by lia.
    cbn [shr SpecFloat.iter_pos].
    assert (∃ q0 r t, shr_1 (shr_record_of_loc (Z.pos q) l)
                      = {| shr_m := Z.pos q0; shr_r := r; shr_s := t |}
                      ∧ Z.pos q0 = Z.pos q / 2) as (q0 & r & t & -> & Hq0).
    { destruct q as [q0 | q0 |]; [| | cbn in Hge; lia].
      - exists q0. destruct l as [| []]; cbn [shr_record_of_loc shr_1];
          eexists _, _; (split; [reflexivity |]);
          rewrite Pos2Z.inj_xI; lia.
      - exists q0. destruct l as [| []]; cbn [shr_record_of_loc shr_1];
          eexists _, _; (split; [reflexivity |]);
          rewrite Pos2Z.inj_xO; lia. }
    cbn [shr_m].
    set (l' := loc_of_shr_record _).
    pose proof (round_nearest_even_near (Z.pos q0) l') as Hr.
    assert (2 ^ 52 <= Z.pos q0 < 2 ^ 53) as Hq0b.
    { rewrite Hq0. change (2 ^ 54) with (2 * 2 ^ 53) in Hq.
      change (2 ^ 53) with (2 * 2 ^ 52) in Hge. lia. }
    destruct (finish_round s (round_nearest_even (Z.pos q0) l') (e + 1))
      as (m & e2 & -> & ->); [lia | lia |].
    eexists _, _. split; [reflexivity |]. right. lia.
Qed.

(** The quotient of [p * 2^s] by [10^6], next to [p / 10^6] shifted. *)
Lemma shifted_quotient (p P : Z) :
  0 <= p -> 2097152 <= P ->
  let q := (p * P) / 1000000 in
  let A := (p / 1000000) * P in
  A <= q <= A + P - 3.
Proof.
  intros Hp HP q A.
  pose proof (Z.div_mod p 1000000 ltac:(lia)) as Hdm.
  pose proof (Z.mod_pos_bound p 1000000 ltac:(lia)) as Hr.
  assert (p * P = 1000000 * A + (p mod 1000000) * P) as HN by (unfold A; nia).
  assert (0 <= (p mod 1000000) * P <= 999999 * P) as HRP by nia.
  pose proof (Z.div_mod (p * P) 1000000 ltac:(lia)) as Hq.
  pose proof (Z.mod_pos_bound (p * P) 1000000 ltac:(lia)) as Hqr.
  fold q in Hq. lia.
Qed.

(** [int(t.timestamp())] for a timestamp less than [2^52] microseconds from
    the epoch (the years 1828 to 2112): the seconds, truncated toward zero. *)
Lemma timestamp_to_int (us : Z) :
  - 2 ^ 52 < us < 2 ^ 52 ->
  PyFloat.to_int (PyFloat.timestamp us) = Ok (us ÷ 1000000).
Proof.
  intros Hus.
  assert (∀ (s : bool) (p : positive), Z.pos p < 2 ^ 52 ->
            PyFloat.to_int (SFdiv 53 1024 (S754_finite s p 0) (S754_finite false 1000000 0))
            = Ok (cond_Zopp s (Z.pos p / 1000000))) as Hmain.
  { clear us Hus. intros s p Hp. cbn [SFdiv xorb]. rewrite xorb_false_r.
    unfold SFdiv_core_binary. cbn [Zdigits2].
    change (Z.pos (digits2_pos 1000000)) with 20.
    set (d := Z.pos (digits2_pos p)).
    pose proof (digits2_pos_bounds p) as [Blo Bhi]. fold d in Blo, Bhi.
    assert (1 <= d <= 52) as Hd.
    { split; [unfold d; lia |].
      destruct (Z.le_gt_cases d 52); [done |]. exfalso.
      assert (2 ^ 52 <= 2 ^ (d - 1)); [apply Z.pow_le_mono_r; lia | lia]. }
    rewrite fexp_normal by lia.
    replace (Z.min (d + 0 - (20 + 0) - 53) (0 - 0)) with (d - 73) by lia.
    replace (0 - 0 - (d - 73)) with (73 - d) by lia.
    destruct (73 - d) as [| k |] eqn:Ek; [lia | | lia].
    rewrite Z.shiftl_mul_pow2 by lia.
    set (P := 2 ^ Z.pos k).
    assert (Z.pos p * P < 2 ^ 73 ∧ 2 ^ 72 <= Z.pos p * P ∧ 2097152 <= P) as (HNhi & HNlo & HP).
    { unfold P. rewrite <- Ek.
      assert (2 ^ 73 = 2 ^ d * 2 ^ (73 - d)) as -> by (rewrite <- Z.pow_add_r by lia; f_equal; lia).
      assert (2 ^ 72 = 2 ^ (d - 1) * 2 ^ (73 - d)) as -> by (rewrite <- Z.pow_add_r by lia; f_equal; lia).
      assert (0 < 2 ^ (73 - d)) by (apply Z.pow_pos_nonneg; lia).
      split; [nia |]. split; [nia |].
      change 2097152 with (2 ^ 21). apply Z.pow_le_mono_r; lia. }
    destruct (Z.div_eucl (Z.pos p * P) 1000000) as [q r] eqn:Ediv.
    assert (q = Z.pos p * P / 1000000) as Hq by (unfold Z.div; by rewrite Ediv).
    assert (2 ^ 52 <= q < 2 ^ 54) as Hqb.
    { rewrite Hq. split.
      - apply Z.div_le_lower_bound; [lia |].
        change (2 ^ 72) with (1048576 * 2 ^ 52) in HNlo. lia.
      - apply Z.div_lt_upper_bound; [lia |].
        change (2 ^ 73) with (524288 * 2 ^ 54) in HNhi. lia. }
    destruct q as [| q' |]; [lia | | lia].
    destruct (round_aux_to_int s q' (d - 73) (new_location 1000000 r) Hqb ltac:(lia))
      as (m1 & k' & -> & Hcase).
    do 2 f_equal.
    pose proof (shifted_quotient (Z.pos p) P ltac:(lia) HP) as Hsq.
    cbv zeta in Hsq. rewrite <- Hq in Hsq.
    destruct Hcase as [[-> Hm1] | [-> Hm1]].
    - replace (- (d - 73)) with (Z.pos k) by lia. fold P.
      symmetry. apply Z.div_unique with (r := m1 - P * (Z.pos p / 1000000)); lia.
    - replace (- (d - 73) - 1) with (Z.pos k - 1) by lia.
      assert (P = 2 * 2 ^ (Z.pos k - 1)) as HP2.
      { unfold P. rewrite <- Z.pow_succ_r by lia. f_equal. lia. }
      set (P' := 2 ^ (Z.pos k - 1)) in *.
      symmetry. apply Z.div_unique with (r := m1 - P' * (Z.pos p / 1000000)); lia. }
  unfold PyFloat.timestamp, PyFloat.int_truediv, PyFloat.exact.
  destruct us as [| p | p].
  - reflexivity.
  - rewrite Hmain by lia. cbn [cond_Zopp]. by rewrite Z.quot_div_nonneg by lia.
  - rewrite Hmain by lia. cbn [cond_Zopp].
    rewrite <- Pos2Z.opp_pos, Z.quot_opp_l by lia.
    by rewrite Z.quot_div_nonneg by lia.
Qed.

End Seconds.

(** ** Backfilling dates *)

Lemma unix_step_other data (u u' : gmap string Change) field k :
  DataSchema.unix_step data u field = Ok u' -> k ≠ field +:+ "_unix" -> u' !! k = u !! k.
Proof.
  unfold DataSchema.unix_step.
  destruct (data !! field) as [[| | | | | us | |] |]; try (by intros [= <-]).
  destruct (PyFloat.to_int (PyFloat.timestamp us)) as [n |]; [| done].
  cbn [mbind exc_bind]. intros [= <-] Hk. by rewrite lookup_insert_ne.
Qed.

Lemma date_step_other data (u u' : gmap string Change) field k :
  DataSchema.date_step data u field = Ok u' -> k ≠ field -> u' !! k = u !! k.
Proof.
  unfold DataSchema.date_step.
  destruct (data !! field ≫= DataSchema.seconds_of) as [[x |] |]; [| done |];
    [| by intros [= <-]].
  cbn [mbind exc_bind]. destruct (PyFloat.fromtimestamp x) as [us |]; [| done].
  cbn [mbind exc_bind]. intros [= <-] Hk. by rewrite lookup_insert_ne.
Qed.

Lemma unix_step_in_range data (u : gmap string Change) field us :
  data !! field = Some (VTimestamp us) -> (- 2 ^ 52 < us < 2 ^ 52)%Z ->
  DataSchema.unix_step data u field
  = Ok (<[field +:+ "_unix" := SetTo (VInt (us ÷ 1000000))]> u).
Proof.
  intros Hf Hus. unfold DataSchema.unix_step. rewrite Hf.
  by rewrite (timestamp_to_int us Hus).
Qed.

Lemma unix_step_total data (u : gmap string Change) field :
  (∀ us, data !! field = Some (VTimestamp us) -> (- 2 ^ 52 < us < 2 ^ 52)%Z) ->
  ∃ u', DataSchema.unix_step data u field = Ok u'.
Proof.
  intros Hr. destruct (data !! field) as [v |] eqn:E.
  - destruct v as [| | | | | us | |];
      try (unfold DataSchema.unix_step; rewrite E; by eexists).
    rewrite (unix_step_in_range data u field us E (Hr us eq_refl)). by eexists.
  - unfold DataSchema.unix_step. rewrite E. by eexists.
Qed.

Lemma date_step_none data (u : gmap string Change) field :
  data !! field ≫= DataSchema.seconds_of = None ->
  DataSchema.date_step data u field = Ok u.
Proof. intros H. unfold DataSchema.date_step. by rewrite H. Qed.

(** C4, counterexample: half a second before the epoch.  [int()] truncates
    [-0.5] to [0]; the floor of the seconds is [-1]. *)
Lemma seconds_before_epoch_truncated :
  let data : gmap string Value := {[ "availableFrom" := VTimestamp (-500000) ]} in
  data !! "availableFrom_unix" = None
  ∧ DataSchema.plan data = Ok {[ "availableFrom_unix" := SetTo (VInt 0) ]}
  ∧ (-500000 / 1000000 = -1)%Z.
Proof. cbv zeta. repeat split; vm_compute; reflexivity. Qed.

(** The script reads the camelCase names: under [created_at] the number is
    left as it is. *)
Lemma snake_case_date_untouched :
  DataSchema.plan {[ "created_at" := VInt 1700000000000 ]} = Ok ∅.
Proof. vm_compute. reflexivity. Qed.

(** C4, amended: for a listing whose [availableFrom] or [availableUntil]
    holds a timestamp less than [2^52] microseconds from the epoch, with or
    without the [_unix] field, the update dictionary that [migrate_listings]
    builds sets the [_unix] field to the seconds of the timestamp truncated
    toward zero, which is their floor from the epoch on; the dictionary is
    built when [createdAt] and [updatedAt] hold no number.  A listing whose
    [createdAt] holds the number 1700000000000 has it set to the timestamp
    at 1700000000 seconds. *)
Theorem backfill_values :
  (∀ (data : gmap string Value) field us,
      field ∈ ["availableFrom"; "availableUntil"] ->
      data !! field = Some (VTimestamp us) ->
      (- 2 ^ 52 < us < 2 ^ 52)%Z ->
      (∀ u, DataSchema.plan data = Ok u ->
         u !! (field +:+ "_unix") = Some (SetTo (VInt (us ÷ 1000000)))
         ∧ apply_update u data !! (field +:+ "_unix") = Some (VInt (us ÷ 1000000)))
      ∧ ((0 <= us)%Z -> (us ÷ 1000000 = us / 1000000)%Z)
      ∧ ((∀ f us', f ∈ ["availableFrom"; "availableUntil"] ->
            data !! f = Some (VTimestamp us') -> (- 2 ^ 52 < us' < 2 ^ 52)%Z) ->
         data !! "createdAt" ≫= DataSchema.seconds_of = None ->
         data !! "updatedAt" ≫= DataSchema.seconds_of = None ->
         ∃ u, DataSchema.plan data = Ok u))
  ∧ DataSchema.plan {[ "createdAt" := VInt 1700000000000 ]}
    = Ok {[ "createdAt" := SetTo (VTimestamp (1700000000 * 1000000)) ]}.
Proof.
  split; [| vm_compute; reflexivity].
  intros data field us Hfield Hts Hus. split; [| split].
  - intros u Hu. rewrite lookup_apply_update.
    assert (u !! (field +:+ "_unix") = Some (SetTo (VInt (us ÷ 1000000)))) as ->; [| done].
    unfold DataSchema.plan in Hu. cbn [DataSchema.for_each] in Hu.
    destruct (DataSchema.unix_step data ∅ "availableFrom") as [u1 |] eqn:E1; [| done].
    cbn [mbind exc_bind] in Hu.
    destruct (DataSchema.unix_step data u1 "availableUntil") as [u2 |] eqn:E2; [| done].
    cbn [mbind exc_bind] in Hu.
    destruct (DataSchema.date_step data u2 "createdAt") as [u3 |] eqn:E3; [| done].
    cbn [mbind exc_bind] in Hu.
    destruct (DataSchema.date_step data u3 "updatedAt") as [u4 |] eqn:E4; [| done].
    cbn [mbind exc_bind] in Hu. injection Hu as <-.
    apply elem_of_cons in Hfield as [-> | Hfield];
      [| apply list_elem_of_singleton in Hfield as ->].
    + rewrite (date_step_other _ _ _ _ _ E4) by done.
      rewrite (date_step_other _ _ _ _ _ E3) by done.
      rewrite (unix_step_other _ _ _ _ _ E2) by done.
      rewrite (unix_step_in_range data ∅ _ us Hts Hus) in E1. injection E1 as <-.
      apply lookup_insert_eq.
    + rewrite (date_step_other _ _ _ _ _ E4) by done.
      rewrite (date_step_other _ _ _ _ _ E3) by done.
      rewrite (unix_step_in_range data u1 _ us Hts Hus) in E2. injection E2 as <-.
      apply lookup_insert_eq.
  - intros Hpos. by apply Z.quot_div_nonneg.
  - intros Hr Hc Hd. unfold DataSchema.plan. cbn [DataSchema.for_each].
    destruct (unix_step_total data ∅ "availableFrom") as [u1 ->].
    { intros us'. apply Hr. left. }
    cbn [mbind exc_bind].
    destruct (unix_step_total data u1 "availableUntil") as [u2 ->].
    { intros us'. apply Hr. right. left. }
    cbn [mbind exc_bind]. rewrite (date_step_none data u2 _ Hc). cbn [mbind exc_bind].
    rewrite (date_step_none data u2 _ Hd). cbn [mbind exc_bind]. by eexists.
Qed.

Lemma backfill_values_witness :
  let data : gmap string Value := {[ "availableFrom" := VTimestamp 1700000000999999 ]} in
  apply_update {[ "availableFrom_unix" := SetTo (VInt 1700000000) ]} data
    !! "availableFrom_unix" = Some (VInt 1700000000)
  ∧ (1700000000999999 ÷ 1000000 = 1700000000999999 / 1000000)%Z
  ∧ ∃ u, DataSchema.plan data = Ok u.
Proof.
  cbv zeta. destruct backfill_values as [H _].
  destruct (H {[ "availableFrom" := VTimestamp 1700000000999999 ]} "availableFrom"
              1700000000999999%Z) as (H1 & H2 & H3).
  - left.
  - vm_compute. reflexivity.
  - vm_compute. split; reflexivity.
  - split; [| split].
    + destruct (H1 {[ "availableFrom_unix" := SetTo (VInt 1700000000) ]}) as [_ Ha];
        [vm_compute; reflexivity |]. exact Ha.
    + apply H2. vm_compute. discriminate.
    + apply H3; [| vm_compute; reflexivity | vm_compute; reflexivity].
      intros f us' Hf Hd.
      apply elem_of_cons in Hf as [-> | Hf];
        [| apply list_elem_of_singleton in Hf as ->; vm_compute in Hd; discriminate].
      vm_compute in Hd. injection Hd as <-. vm_compute. split; reflexivity.
Defined.

(** ** Translating a second time *)

Lemma translate_list_hashable vm items r :
  ContentI18n.translate_list vm items = Ok r ->
  Forall (fun item => hashable item = true) items.
Proof.
  revert r. induction items as [| item rest IH]; intros r; cbn [ContentI18n.translate_list].
  - constructor.
  - destruct (ContentI18n.translate_item vm item) as [t |] eqn:Et; [| done].
    cbn [mbind exc_bind].
    destruct (ContentI18n.translate_list vm rest) as [[l c] |]; [| done].
    intros _. constructor; [| by eapply IH].
    by destruct item.
Qed.

Lemma py_ne_false_same vm item :
  hashable item = true ->
  ContentI18n.py_ne (pass_through vm item) item = false -> pass_through vm item = item.
Proof.
  intros Hh. destruct item as [| | | | s | | |]; try done.
  cbn. destruct (ContentI18n.dict_get vm s) as [t |]; [| done].
  cbn. rewrite negb_false_iff. by intros ->%String.eqb_eq.
Qed.

Lemma pass_through_hashable vm item :
  hashable (pass_through vm item) = hashable item.
Proof.
  destruct item as [| | | | s | | |]; try done.
  cbn. by destruct (ContentI18n.dict_get vm s).
Qed.

(** What a field of a rule holds after the update of
    [migrate_collection_content]. *)
Lemma field_after_translation rules field vm doc_data u :
  NoDup rules.*1 -> (field, vm) ∈ rules ->
  ContentI18n.plan rules doc_data = Ok u ->
  apply_update u doc_data !! field = translated vm <$> doc_data !! field
  ∧ ∀ items, doc_data !! field = Some (VList items) ->
             Forall (fun item => hashable item = true) items.
Proof.
  intros Hnd Hin Hu.
  destruct (convert_fields_at doc_data rules field vm ∅ u Hnd Hin Hu)
    as (ua & ub & Ha & Hb & Hc).
  rewrite lookup_empty in Ha. rewrite lookup_apply_update, Hc.
  unfold ContentI18n.convert_field in Hb.
  destruct (doc_data !! field) as [v |] eqn:Ev; [| injection Hb as <-; by rewrite Ha].
  destruct v as [| | | | s | | items |]; try (injection Hb as <-; by rewrite Ha).
  - cbn [fmap option_fmap option_map translated].
    destruct (ContentI18n.dict_get vm s) as [t |]; [| injection Hb as <-; by rewrite Ha].
    destruct (ContentI18n.str_truthy t); injection Hb as <-;
      [by rewrite lookup_insert_eq | by rewrite Ha].
  - destruct (ContentI18n.translate_list vm items) as [[l c] |] eqn:Et; [| done].
    pose proof (translate_list_hashable _ _ _ Et) as Hh.
    destruct (translate_list_ok _ _ _ _ Et) as [-> Hch].
    cbn [mbind exc_bind] in Hb. split; [| by intros ? [= <-]].
    cbn [fmap option_fmap option_map translated].
    destruct c; injection Hb as <-; [by rewrite lookup_insert_eq |].
    rewrite Ha. do 2 f_equal. symmetry.
    assert (¬ Exists (fun item => ContentI18n.py_ne (pass_through vm item) item = true)
              items) as Hno by (intros H; apply Hch in H; discriminate).
    clear -Hh Hno. induction Hh as [| item rest Hi _ IH]; [done |].
    cbn [fmap list_fmap]. f_equal.
    + apply py_ne_false_same; [done |]. apply not_true_is_false. intros H. apply Hno. by left.
    + apply IH. intros H. apply Hno. by right.
Qed.

Lemma field_outside_rules rules doc_data u k :
  k ∉ rules.*1 -> ContentI18n.plan rules doc_data = Ok u ->
  apply_update u doc_data !! k = doc_data !! k.
Proof.
  intros Hk Hu. rewrite lookup_apply_update.
  by rewrite (convert_fields_other _ _ _ _ _ Hu Hk), lookup_empty.
Qed.

Lemma settled_lookup vm s t :
  settled vm -> ContentI18n.dict_get vm s = Some t ->
  ContentI18n.dict_get vm t = None ∨ ContentI18n.dict_get vm t = Some t.
Proof.
  intros Hs Hget. unfold settled in Hs. rewrite Forall_forall in Hs.
  apply (Hs (s, t)). by apply dict_get_elem.
Qed.

Lemma pass_through_twice vm item :
  settled vm -> pass_through vm (pass_through vm item) = pass_through vm item.
Proof.
  intros Hs. destruct item as [| | | | s | | |]; try done.
  cbn. destruct (ContentI18n.dict_get vm s) as [t |] eqn:E; cbn; [| by rewrite E].
  by destruct (settled_lookup vm s t Hs E) as [-> | ->].
Qed.

Lemma translated_twice vm v :
  settled vm -> translated vm (translated vm v) = translated vm v.
Proof.
  intros Hs. destruct v as [| | | | s | | items |]; try done.
  - cbn. destruct (ContentI18n.dict_get vm s) as [t |] eqn:E; cbn; [| by rewrite E].
    destruct (ContentI18n.str_truthy t) eqn:Et; cbn; [| by rewrite E, Et].
    destruct (settled_lookup vm s t Hs E) as [-> | ->]; [done | by rewrite Et].
  - cbn. f_equal. rewrite <- list_fmap_compose. apply list_fmap_ext.
    intros i item _. by apply pass_through_twice.
Qed.

(** Over a migrated document [migrate_collection_content] builds an update
    that changes no field, when no value map translates a translation
    further. *)
Lemma content_second_pass rules doc_data u :
  NoDup rules.*1 -> Forall (fun rule => settled (snd rule)) rules ->
  ContentI18n.plan rules doc_data = Ok u ->
  ∃ u', ContentI18n.plan rules (apply_update u doc_data) = Ok u'
        ∧ apply_update u' (apply_update u doc_data) = apply_update u doc_data.
Proof.
  intros Hnd Hset Hu.
  destruct (convert_fields_total (apply_update u doc_data) rules) with (u0 := (∅ : gmap string Change))
    as [u' Hu'].
  { intros field items Hf Hl. apply list_elem_of_fmap in Hf as ([f vm] & -> & Hin).
    cbn [fst] in Hl.
    destruct (field_after_translation rules f vm doc_data u Hnd Hin Hu) as [Hafter Hhash].
    rewrite Hafter in Hl. destruct (doc_data !! f) as [v |] eqn:Ev; [| done].
    destruct v as [| | | | s | | items0 |]; cbn in Hl; try done.
    - destruct (ContentI18n.dict_get vm s) as [t |]; [| done].
      by destruct (ContentI18n.str_truthy t).
    - injection Hl as <-. apply Forall_fmap. specialize (Hhash items0 eq_refl).
      eapply Forall_impl; [exact Hhash |]. cbn. intros item Hi.
      by rewrite pass_through_hashable. }
  exists u'. split; [exact Hu' |]. apply map_eq. intros k.
  destruct (decide (k ∈ rules.*1)) as [Hk | Hk].
  - apply list_elem_of_fmap in Hk as ([f vm] & -> & Hin). cbn [fst].
    destruct (field_after_translation rules f vm _ u' Hnd Hin Hu') as [-> _].
    destruct (field_after_translation rules f vm doc_data u Hnd Hin Hu) as [-> _].
    rewrite Forall_forall in Hset. specialize (Hset _ Hin). cbn [snd] in Hset.
    destruct (doc_data !! f) as [v |]; [| done]. cbn. f_equal. by apply translated_twice.
  - by apply (field_outside_rules rules).
Qed.

Lemma configured_rules_settled collection rules :
  (collection, rules) ∈ ContentI18n.CONTENT_CONVERSION_MAP ->
  NoDup rules.*1 ∧ Forall (fun rule => settled (snd rule)) rules.
Proof.
  intros Hin.
  assert (Forall (fun cr : string * list (string * list (string * string)) =>
            NoDup (snd cr).*1
            ∧ Forall (fun rule : string * list (string * string) =>
                        Forall (fun entry : string * string =>
                                  bool_decide
                                    (ContentI18n.dict_get (snd rule) (snd entry) = None
                                     ∨ ContentI18n.dict_get (snd rule) (snd entry)
                                       = Some (snd entry)))
                               (snd rule)) (snd cr))
            ContentI18n.CONTENT_CONVERSION_MAP) as Hall by compute_done.
  rewrite Forall_forall in Hall. destruct (Hall _ Hin) as [Hnd Hs]. cbn [snd] in *.
  split; [done |]. eapply Forall_impl; [exact Hs |]. cbn. intros rule Hr.
  unfold settled. eapply Forall_impl; [exact Hr |]. cbn. intros entry He.
  by apply bool_decide_unpack in He.
Qed.

(** ** Running the backfill a second time *)

(** C1, counterexample: a second run that stages changes.  At a listing
    with a timestamp in [availableFrom], a second run of [migrate_listings]
    of [migrate_data_schema.py] stages [availableFrom_unix] again, with the
    value it already has.  At a listing with [sourceLanguage = "es"], a
    first run of [migrate_listings] of [migrate_name_fields_i18n.py] deletes
    [sourceLanguage] and adds nothing; a second run over the result finds no
    [sourceLanguage], stages [source_language = "en"] and changes the
    listing again. *)
Lemma second_run_stages_changes :
  (let d0 : gmap string Value := {[ "availableFrom" := VTimestamp 1700000000000000 ]} in
   let d1 : gmap string Value :=
     {[ "availableFrom" := VTimestamp 1700000000000000;
        "availableFrom_unix" := VInt 1700000000 ]} in
   store_after {[ "l1" := d0 ]} (DataSchema.migrate_listings [("l1", d0)])
     = Some {[ "l1" := d1 ]}
   ∧ updates_of "l1" (DataSchema.migrate_listings [("l1", d1)])
     = [("l1", {[ "availableFrom_unix" := SetTo (VInt 1700000000) ]})]
   ∧ store_after {[ "l1" := d1 ]} (DataSchema.migrate_listings [("l1", d1)])
     = Some {[ "l1" := d1 ]})
  ∧ (let d0 : gmap string Value :=
       {[ "title" := VStr "Loft"; "sourceLanguage" := VStr "es" ]} in
     let d1 : gmap string Value := {[ "title" := VStr "Loft" ]} in
     let d2 : gmap string Value :=
       {[ "title" := VStr "Loft"; "source_language" := VStr "en" ]} in
     store_after {[ "l1" := d0 ]} (NameI18n.migrate_listings [("l1", d0)])
       = Some {[ "l1" := d1 ]}
     ∧ updates_of "l1" (NameI18n.migrate_listings [("l1", d1)])
       = [("l1", {[ "source_language" := SetTo (VStr "en") ]})]
     ∧ store_after {[ "l1" := d1 ]} (NameI18n.migrate_listings [("l1", d1)])
       = Some {[ "l1" := d2 ]}
     ∧ d2 ≠ d1).
Proof.
  cbv zeta. repeat split; try (vm_compute; reflexivity).
  intros H. apply (f_equal (fun m : gmap string Value => m !! "source_language")) in H.
  vm_compute in H. discriminate.
Qed.

Lemma unix_step_same_field data data' (u : gmap string Change) field :
  data' !! field = data !! field ->
  DataSchema.unix_step data' u field = DataSchema.unix_step data u field.
Proof. intros H. unfold DataSchema.unix_step. by rewrite H. Qed.

Lemma date_step_at data (u u' : gmap string Change) field :
  DataSchema.date_step data u field = Ok u' ->
  (data !! field ≫= DataSchema.seconds_of = None ∧ u' = u)
  ∨ ∃ us, u' !! field = Some (SetTo (VTimestamp us)).
Proof.
  unfold DataSchema.date_step.
  destruct (data !! field ≫= DataSchema.seconds_of) as [[x |] |]; [| done |].
  - cbn [mbind exc_bind]. destruct (PyFloat.fromtimestamp x) as [us |]; [| done].
    cbn [mbind exc_bind]. intros [= <-]. right. exists us. apply lookup_insert_eq.
  - intros [= <-]. by left.
Qed.

(** After the update of [migrate_data_schema.py] a date field holds no
    number any more. *)
Lemma no_number_left data (u1 u2 u : gmap string Change) (field : string) :
  DataSchema.date_step data u1 field = Ok u2 ->
  u1 !! field = None -> u !! field = u2 !! field ->
  apply_update u data !! field ≫= DataSchema.seconds_of = None.
Proof.
  intros Hstep H1 H2. rewrite lookup_apply_update, H2.
  destruct (date_step_at _ _ _ _ Hstep) as [[Hn ->] | [us ->]]; [| done].
  by rewrite H1.
Qed.

(** C1, amended: applying the rules to a document and then again to the
    result yields no further field changes, for the renames of
    [migrate_case_style.py] with either of its field maps, for the
    translations of [migrate_content_fields_i18n.py] with the rules of
    [CONTENT_CONVERSION_MAP] and for the backfill of [migrate_listings] of
    [migrate_data_schema.py].  For the renames the second update dictionary
    is empty.  For the backfill it is not: the check is on the source
    timestamp, which is still there, and the same [_unix] value is staged
    again. *)
Theorem rerun_changes_no_field :
  (∀ field_map data,
      field_map = CaseStyle.LISTINGS_FIELD_MAP ∨ field_map = CaseStyle.USERS_FIELD_MAP ->
      CaseStyle.rename_fields field_map
        (apply_update (CaseStyle.rename_fields field_map data) data) = ∅)
  ∧ (∀ collection conversion_rules doc_data u,
      (collection, conversion_rules) ∈ ContentI18n.CONTENT_CONVERSION_MAP ->
      ContentI18n.plan conversion_rules doc_data = Ok u ->
      ∃ u', ContentI18n.plan conversion_rules (apply_update u doc_data) = Ok u'
            ∧ apply_update u' (apply_update u doc_data) = apply_update u doc_data)
  ∧ (∀ data u,
      DataSchema.plan data = Ok u ->
      ∃ u', DataSchema.plan (apply_update u data) = Ok u'
            ∧ apply_update u' (apply_update u data) = apply_update u data
            ∧ ∀ field c, field ∈ ["availableFrom_unix"; "availableUntil_unix"] ->
                u !! field = Some c -> u' !! field = Some c).
Proof.
  split; [intros; by apply case_style_second_pass |].
  split.
  { intros collection rules doc_data u Hin Hu.
    destruct (configured_rules_settled collection rules Hin) as [Hnd Hset].
    by apply content_second_pass. }
  intros data u Hu. unfold DataSchema.plan in Hu |- *.
  cbn [DataSchema.for_each] in Hu |- *.
  destruct (DataSchema.unix_step data ∅ "availableFrom") as [u1 |] eqn:E1; [| done].
  cbn [mbind exc_bind] in Hu.
  destruct (DataSchema.unix_step data u1 "availableUntil") as [u2 |] eqn:E2; [| done].
  cbn [mbind exc_bind] in Hu.
  destruct (DataSchema.date_step data u2 "createdAt") as [u3 |] eqn:E3; [| done].
  cbn [mbind exc_bind] in Hu.
  destruct (DataSchema.date_step data u3 "updatedAt") as [u4 |] eqn:E4; [| done].
  cbn [mbind exc_bind] in Hu. injection Hu as <-.
  assert (∀ k, is_Some (u2 !! k) -> k = "availableFrom_unix" ∨ k = "availableUntil_unix")
    as Hkeys2.
  { intros k Hk. apply (unix_step_keys _ _ _ _ _ E2) in Hk as [Hk | ->]; [| by right].
    apply (unix_step_keys _ _ _ _ _ E1) in Hk as [Hk | ->]; [| by left].
    rewrite lookup_empty in Hk. by destruct Hk. }
  assert (∀ k, k ≠ "availableFrom_unix" -> k ≠ "availableUntil_unix" -> u2 !! k = None)
    as Hnone2.
  { intros k H1 H2. destruct (u2 !! k) eqn:E; [| done].
    destruct (Hkeys2 k) as [? | ?]; [eauto | done | done]. }
  assert (∀ k, k ≠ "availableFrom_unix" -> k ≠ "availableUntil_unix" ->
               k ≠ "createdAt" -> k ≠ "updatedAt" ->
               apply_update u4 data !! k = data !! k) as Hsame.
  { intros k H1 H2 H3 H4. rewrite lookup_apply_update.
    rewrite (date_step_other _ _ _ _ _ E4), (date_step_other _ _ _ _ _ E3) by done.
    by rewrite Hnone2. }
  rewrite (unix_step_same_field data) by (by apply Hsame).
  rewrite E1. cbn [mbind exc_bind].
  rewrite (unix_step_same_field data) by (by apply Hsame).
  rewrite E2. cbn [mbind exc_bind].
  rewrite date_step_none; cycle 1.
  { apply (no_number_left data u2 u3); [done | by apply Hnone2 |].
    by apply (date_step_other _ _ _ _ _ E4). }
  cbn [mbind exc_bind].
  rewrite date_step_none; cycle 1.
  { apply (no_number_left data u3 u4); [done | | done].
    rewrite (date_step_other _ _ _ _ _ E3) by done. by apply Hnone2. }
  cbn [mbind exc_bind]. exists u2.
  assert (∀ k, is_Some (u2 !! k) -> u4 !! k = u2 !! k) as Hkeep.
  { intros k Hk. apply Hkeys2 in Hk.
    rewrite (date_step_other _ _ _ _ _ E4) by (destruct Hk as [-> | ->]; done).
    by rewrite (date_step_other _ _ _ _ _ E3) by (destruct Hk as [-> | ->]; done). }
  split; [done |]. split.
  - apply map_eq. intros k. rewrite (lookup_apply_update u2).
    destruct (u2 !! k) as [c |] eqn:E; [| done].
    by rewrite lookup_apply_update, Hkeep, E by eauto.
  - intros field c Hfield Hc.
    assert (field ≠ "createdAt" ∧ field ≠ "updatedAt") as [? ?].
    { apply elem_of_cons in Hfield as [-> | Hfield]; [done |].
      apply list_elem_of_singleton in Hfield as ->. done. }
    rewrite (date_step_other _ _ _ _ _ E4) in Hc by done.
    by rewrite (date_step_other _ _ _ _ _ E3) in Hc by done.
Qed.

Lemma rerun_changes_no_field_witness :
  CaseStyle.rename_fields CaseStyle.USERS_FIELD_MAP
    (apply_update (CaseStyle.rename_fields CaseStyle.USERS_FIELD_MAP
                     {[ "hasPets" := VBool true ]})
       {[ "hasPets" := VBool true ]}) = ∅
  ∧ (∃ u', ContentI18n.plan ContentI18n.users_rules
             (apply_update {[ "role" := SetTo (VStr "tenant") ]}
                {[ "role" := VStr "inquilino" ]}) = Ok u'
           ∧ apply_update u'
               (apply_update {[ "role" := SetTo (VStr "tenant") ]}
                  {[ "role" := VStr "inquilino" ]})
             = apply_update {[ "role" := SetTo (VStr "tenant") ]}
                 {[ "role" := VStr "inquilino" ]})
  ∧ ∃ u', DataSchema.plan
            (apply_update {[ "availableFrom_unix" := SetTo (VInt 1700000000) ]}
               {[ "availableFrom" := VTimestamp 1700000000000000 ]}) = Ok u'
          ∧ apply_update u'
              (apply_update {[ "availableFrom_unix" := SetTo (VInt 1700000000) ]}
                 {[ "availableFrom" := VTimestamp 1700000000000000 ]})
            = apply_update {[ "availableFrom_unix" := SetTo (VInt 1700000000) ]}
                {[ "availableFrom" := VTimestamp 1700000000000000 ]}
          ∧ u' !! "availableFrom_unix" = Some (SetTo (VInt 1700000000)).
Proof.
  destruct rerun_changes_no_field as (H1 & Hc & H2). split; [| split].
  - apply H1. by right.
  - apply (Hc "users" ContentI18n.users_rules {[ "role" := VStr "inquilino" ]}).
    + left.
    + vm_compute. reflexivity.
  - destruct (H2 {[ "availableFrom" := VTimestamp 1700000000000000 ]}
                {[ "availableFrom_unix" := SetTo (VInt 1700000000) ]})
      as (u' & Hp & Ha & Hs); [vm_compute; reflexivity |].
    exists u'. split; [done |]. split; [done |].
    apply Hs; [left | vm_compute; reflexivity].
Defined.
